(** * Voice channel of nanobot: a shallow embedding of
      [src/nanobot/channels/voice_channel.py]

    The channel records audio windows from PyAudio, gates them with a peak
    threshold, sends them to Baidu's recognizer and publishes the transcript;
    in the other direction it synthesizes text and plays the audio back.

    The embedding is a state / exception / trace monad: the state is the part
    of [self] the methods read and write, exceptions are Python's, and the
    trace lists every call that leaves the class (PyAudio, the Baidu client,
    the message bus, [asyncio.sleep], the logger) in program order.  What
    those calls answer is taken from an environment record, so that every
    theorem quantifies over all behaviours of the device and of the
    provider.

    Exceptions are the subclasses of [Exception] together with
    [asyncio.CancelledError]; the latter is delivered only where a coroutine
    really suspends ([asyncio.sleep], [_handle_message]): the PyAudio and
    Baidu calls are blocking calls.  [KeyboardInterrupt] and the like are
    outside the model. *)

From Stdlib Require Import ZArith QArith String List Lia.
From Stdlib.Strings Require Import Byte.
From stdpp Require Import base option list gmap strings.

Local Open Scope string_scope.
Local Open Scope list_scope.

(** ** Python values, exceptions *)

(** The JSON-like values found in the provider's answers. *)
#[warnings="-register-all"]
Inductive pyval :=
| VNone
| VInt (z : Z)
| VStr (s : string)
| VList (l : list pyval).

(** Subclasses of [Exception]: those the code meets, and [RuntimeError] for
    any other.  In Python 3 [IOError] is [OSError]. *)
Inductive exn :=
| OSError (args : list pyval)
| IndexError
| TypeError
| ValueError
| OverflowError
| RuntimeError (msg : string).

(** What a coroutine can raise: an [Exception], or [asyncio.CancelledError],
    which since Python 3.8 derives from [BaseException] and is therefore not
    caught by [except Exception]. *)
Inductive raised :=
| Cancelled
| Exc (e : exn).

Inductive outcome (A : Type) :=
| Ret (a : A)
| Raise (r : raised).
Arguments Ret {A} a.
Arguments Raise {A} r.

(** [bytes] objects; iterating one yields its bytes as integers 0..255. *)
Abbreviation bytes := (list byte).

Definition handle := nat.

(** Truth value of a Python object ([if text:]). *)
Definition truthy (v : pyval) : bool :=
  match v with
  | VNone => false
  | VInt z => negb (z =? 0)%Z
  | VStr s => negb (String.eqb s "")
  | VList l => match l with [] => false | _ => true end
  end.

(** [v == z] for an integer literal [z]. *)
Definition py_eq_int (v : pyval) (z : Z) : bool :=
  match v with
  | VInt z' => (z' =? z)%Z
  | _ => false
  end.

(** [v[0]]. *)
Definition subscript0 (v : pyval) : exn + pyval :=
  match v with
  | VList (x :: _) => inr x
  | VList [] => inl IndexError
  | VStr (String c _) => inr (VStr (String c ""))
  | VStr "" => inl IndexError
  | VNone | VInt _ => inl TypeError
  end.

(** [e.args[0]]. *)
Definition args0 (args : list pyval) : exn + pyval :=
  match args with
  | a :: _ => inr a
  | [] => inl IndexError
  end.

(** [max(data)] on a [bytes] object: [ValueError] when it is empty. *)
Definition py_max (data : bytes) : exn + N :=
  match data with
  | [] => inl ValueError
  | b :: bs => inr (fold_left N.max (map Byte.to_N bs) (Byte.to_N b))
  end.

(** [int(q)]: truncation toward zero. *)
Definition py_int (q : Q) : Z := Z.quot (Qnum q) (Z.pos (Qden q)).

(** Python floats: the finite ones are rationals. *)
Inductive pyfloat :=
| Finite (q : Q)
| Infinity
| NaN.

(** The largest finite binary64 float, [(2^53 - 1) * 2^971]. *)
Definition float_max : Q := ((2 ^ 1024 - 2 ^ 971)%Z # 1).

(** A result that, once rounded, lies beyond the finite floats: the
    operation yields an infinity instead. *)
Definition overflows (r : Q) : bool :=
  negb (Qle_bool (- float_max) r && Qle_bool r float_max).

(** ** Trace of the calls that leave the class *)

Inductive level := Debug | Info | Warning | Error.

Inductive logmsg :=
| MsgListening
| MsgOverflow
| MsgRecorded (len : nat)
| MsgRecognized (text : pyval)
| MsgNoSpeech
| MsgNoVoice
| MsgListenError (e : exn)
| MsgAsrError (err_msg : pyval)
| MsgAsrFailed (e : exn)
| MsgTtsError (err_msg : pyval)
| MsgTtsParams (params : gmap string Z) (len : nat)
| MsgTtsFailed (e : exn)
| MsgGenerated (len : nat)
| MsgSynthFailed
| MsgSendFailed (e : exn)
| MsgPlayFailed (e : exn)
| MsgCloseWarning (e : exn)
| MsgStopped.

Inductive event :=
| PaOpenInput (rate frames_per_buffer : Z)
| PaOpenOutput (rate : Z)
| PaTerminate
| StreamRead (h : handle) (n : Z)
| StreamWrite (h : handle) (data : bytes)
| StreamStop (h : handle)
| StreamClose (h : handle)
| Asr (audio : bytes) (fmt : string) (rate dev_pid : Z)
| Synthesis (text lang : string) (ctp : Z) (params : gmap string Z)
| HandleMessage (sender_id chat_id : string) (content : pyval)
| TaskCancel
| Sleep (seconds : Q)
| Log (lv : level) (msg : logmsg).

(** ** The channel object and the monad *)

(** The attributes of [self] that the methods assign. *)
Record channel := Channel {
  _running : bool;               (* self._running *)
  stream : option handle;        (* self.stream *)
  _recording_task : bool         (* self._recording_task is not None *)
}.

Definition M (A : Type) : Type := channel -> outcome A * channel * list event.

#[global] Instance M_ret : MRet M := fun A a s => (Ret a, s, []).

#[global] Instance M_bind : MBind M := fun A B f m s =>
  match m s with
  | (Ret a, s1, t1) =>
      match f a s1 with
      | (r, s2, t2) => (r, s2, t1 ++ t2)
      end
  | (Raise e, s1, t1) => (Raise e, s1, t1)
  end.

Definition raise {A} (r : raised) : M A := fun s => (Raise r, s, []).
Definition emit (ev : event) : M unit := fun s => (Ret tt, s, [ev]).
Definition log (lv : level) (msg : logmsg) : M unit := emit (Log lv msg).
Definition get_stream : M (option handle) := fun s => (Ret (stream s), s, []).
Definition set_stream (o : option handle) : M unit :=
  fun s => (Ret tt, Channel (_running s) o (_recording_task s), []).
Definition get_running : M bool := fun s => (Ret (_running s), s, []).
Definition set_running (b : bool) : M unit :=
  fun s => (Ret tt, Channel b (stream s) (_recording_task s), []).
Definition get_recording_task : M bool :=
  fun s => (Ret (_recording_task s), s, []).
Definition set_recording_task (b : bool) : M unit :=
  fun s => (Ret tt, Channel (_running s) (stream s) b, []).

(** The answer of an external call that either raises or returns. *)
Definition answer {A} (r : exn + A) : M A :=
  match r with
  | inl e => raise (Exc e)
  | inr a => mret a
  end.

(** An external call that returns [None] or raises. *)
Definition answer_unit (r : option exn) : M unit :=
  match r with
  | Some e => raise (Exc e)
  | None => mret tt
  end.

(** [try: body  except ...: handler]; the handler re-raises what its
    [except] clauses do not match. *)
Definition try_except {A} (body : M A) (handler : raised -> M A) : M A :=
  fun s =>
    match body s with
    | (Ret a, s1, t1) => (Ret a, s1, t1)
    | (Raise r, s1, t1) =>
        match handler r s1 with
        | (o, s2, t2) => (o, s2, t1 ++ t2)
        end
    end.

(** An [await] on something that really suspends: the point where the
    cancellation requested by [stop] is delivered. *)
Definition suspend (cancelled : bool) : M unit :=
  if cancelled then raise Cancelled else mret tt.

(** ** Recognition: [recognize_speech] *)

(** [d.get(k)]. *)
Definition dict_get (d : gmap string pyval) (k : string) : pyval :=
  default VNone (d !! k).

(** [asr_answer] is what [self.client.asr(audio_data, 'pcm', 16000,
    {'dev_pid': 1537})] answers.  The body of the [try] yields [Some v] where
    the source returns [v] from inside it and [None] where control falls
    through to the final [return None]. *)
Definition recognize_speech (asr_answer : exn + gmap string pyval)
    (audio_data : bytes) : M pyval :=
  r ← try_except
        (emit (Asr audio_data "pcm" 16000 1537);;
         result ← answer asr_answer;
         if py_eq_int (dict_get result "err_no") 0
         then v ← answer (subscript0 (dict_get result "result")); mret (Some v)
         else log Error (MsgAsrError (dict_get result "err_msg"));; mret None)
        (fun r => match r with
                  | Exc e => log Error (MsgAsrFailed e);; mret None
                  | Cancelled => raise Cancelled
                  end);
  mret (default VNone r).

(** ** The listen loop: [_listen_for_audio] *)

Definition rate : Z := 16000.
Definition chunk : Z := 1024.
Definition record_seconds : Z := 3.

(** [int(self.rate / self.chunk * self.record_seconds)]; the quotient and the
    product are exact in binary floating point (15.625 and 46.875). *)
Definition chunks_per_window : nat :=
  Z.to_nat (py_int ((rate # 1) / (chunk # 1) * (record_seconds # 1))).

(** What the world answers during one pass of the [while] body. *)
Record listen_env := ListenEnv {
  open_input : exn + handle;          (* self.p.open(..., input=True, ...) *)
  read : nat -> exn + bytes;          (* i-th self.stream.read(self.chunk) *)
  asr : exn + gmap string pyval;      (* self.client.asr(...) *)
  _handle_message : option raised;    (* await self._handle_message(...) *)
  idle_cancelled : bool;              (* await asyncio.sleep(0.5) *)
  stop_stream : option exn;           (* self.stream.stop_stream() *)
  close : option exn;                 (* self.stream.close() *)
  backoff_cancelled : bool            (* await asyncio.sleep(1) *)
}.

(** One pass of the [for] body (lines 92-106).  Only [read] can raise an
    [IOError], and it does so before [frames.append], so the handler sees
    the list as it was. *)
Definition read_chunk (env : listen_env) (h : handle) (i : nat)
    (frames : list bytes) (has_voice : bool) : M (list bytes * bool) :=
  try_except
    (emit (StreamRead h chunk);;
     data ← answer (read env i);
     let frames := frames ++ [data] in
     audio_intensity ← answer (py_max data);
     mret (frames, if (100 <? audio_intensity)%N then true else has_voice))
    (fun r => match r with
              | Exc (OSError args) =>
                  a ← answer (args0 args);
                  if py_eq_int a (-9981)
                  then log Warning MsgOverflow;; mret (frames, has_voice)
                  else raise (Exc (OSError args))
              | _ => raise r
              end).

(** The [for _ in range(0, n)] loop, [i] being the index of the next read. *)
Fixpoint record_window (env : listen_env) (h : handle) (i n : nat)
    (frames : list bytes) (has_voice : bool) : M (list bytes * bool) :=
  match n with
  | O => mret (frames, has_voice)
  | S n' =>
      '(frames, has_voice) ← read_chunk env h i frames has_voice;
      record_window env h (S i) n' frames has_voice
  end.

(** What follows the [for] loop in the [try] block (lines 108-127). *)
Definition process_window (env : listen_env) (frames : list bytes)
    (has_voice : bool) : M unit :=
  (if has_voice then
     let audio_data := concat frames in
     log Info (MsgRecorded (length audio_data));;
     text ← recognize_speech (asr env) audio_data;
     if truthy text then
       log Info (MsgRecognized text);;
       emit (HandleMessage "voice_user" "voice_chat" text);;
       match _handle_message env with
       | Some r => raise r
       | None => mret tt
       end
     else log Warning MsgNoSpeech
   else log Debug MsgNoVoice);;
  emit (Sleep (1 # 2));;
  suspend (idle_cancelled env).

(** The [try] block of the [while] body (lines 78-127). *)
Definition listen_cycle (env : listen_env) : M unit :=
  emit (PaOpenInput rate chunk);;
  h ← answer (open_input env);
  set_stream (Some h);;
  log Debug MsgListening;;
  '(frames, has_voice) ← record_window env h 0 chunks_per_window [] false;
  process_window env frames has_voice.

Inductive loop_ctl := Continue | Break.

(** The [while] body with its two [except] clauses (lines 77-139).  The
    inner bare [except: pass] swallows everything; [asyncio.sleep(1)] sits
    inside [if self.stream is not None]. *)
Definition listen_iteration (env : listen_env) : M loop_ctl :=
  try_except
    (listen_cycle env;; mret Continue)
    (fun r => match r with
              | Cancelled => mret Break
              | Exc e =>
                  log Error (MsgListenError e);;
                  s ← get_stream;
                  match s with
                  | Some h =>
                      try_except
                        (emit (StreamStop h);;
                         answer_unit (stop_stream env);;
                         emit (StreamClose h);;
                         answer_unit (close env))
                        (fun _ => mret tt);;
                      emit (Sleep 1);;
                      suspend (backoff_cancelled env)
                  | None => mret tt
                  end;;
                  mret Continue
              end).

(** The loop runs until it exits; [Looping] says that the list of
    environments was used up with the loop still going. *)
Inductive loop_state := Exited | Looping.

Fixpoint _listen_for_audio (envs : list listen_env) : M loop_state :=
  r ← get_running;
  if negb r then mret Exited
  else match envs with
       | [] => mret Looping
       | env :: envs' =>
           c ← listen_iteration env;
           match c with
           | Break => mret Exited
           | Continue => _listen_for_audio envs'
           end
       end.

(** ** Life cycle: [start], [stop] *)

Definition start : M unit :=
  set_running true;;
  set_recording_task true.

Definition stop (env : listen_env) : M unit :=
  set_running false;;
  t ← get_recording_task;
  (if (t : bool) then emit TaskCancel else mret tt);;
  s ← get_stream;
  match s with
  | Some h =>
      try_except
        (emit (StreamStop h);;
         answer_unit (stop_stream env);;
         emit (StreamClose h);;
         answer_unit (close env))
        (fun r => match r with
                  | Exc e => log Warning (MsgCloseWarning e)
                  | Cancelled => raise Cancelled
                  end)
  | None => mret tt
  end;;
  emit PaTerminate;;
  log Info MsgStopped.

(** ** Synthesis and playback: [synthesize_speech], [_play_audio], [send] *)

(** [config.channels.voice]: every attribute is read with [getattr] and a
    default, so each may be missing. *)
Record voice_config := VoiceConfig {
  vol : option Z;
  tts_speed : option pyfloat;
  pit : option Z;
  tts_voice_name : option Z;
  language : option string
}.

(** What [self.client.synthesis] returns: the audio, or the provider's error
    as a [dict]. *)
Inductive synth_result :=
| Audio (data : bytes)
| ErrorDict (d : gmap string pyval).

(** What the world answers during one [send]. *)
Record send_env := SendEnv {
  synthesis : exn + synth_result;     (* self.client.synthesis(...) *)
  open_output : exn + handle;         (* self.p.open(..., output=True) *)
  write : option exn;                 (* stream.write(audio_data) *)
  play_stop : option exn;             (* stream.stop_stream() *)
  play_close : option exn             (* stream.close() *)
}.

(** The argument of [send]: a [str], or an object that may carry a
    [content] attribute and has a string conversion. *)
Inductive pymsg :=
| MsgText (s : string)
| MsgObject (content : option string) (str : string).

(** [msg.content if hasattr(msg, 'content') else str(msg)]. *)
Definition message_text (msg : pymsg) : string :=
  match msg with
  | MsgText s => s
  | MsgObject (Some c) _ => c
  | MsgObject None s => s
  end.

(** [max(0, min(hi, x))]. *)
Definition clamp (hi x : Z) : Z := Z.max 0 (Z.min hi x).

(** [int(x)] for a float. *)
Definition int_of_float (x : pyfloat) : exn + Z :=
  match x with
  | Finite q => inr (py_int q)
  | Infinity => inl OverflowError
  | NaN => inl ValueError
  end.

Section Synthesis.

(** Rounding of a real number to the nearest binary64 float. *)
Variable round64 : Q -> Q.

(** [x * 5] on floats: the rounded product, or an infinity when it
    overflows. *)
Definition times5 (x : pyfloat) : pyfloat :=
  match x with
  | Finite q =>
      let r := round64 (q * 5) in
      if overflows r then Infinity else Finite r
  | Infinity => Infinity
  | NaN => NaN
  end.

(** The [params] dict of lines 166-171; building it raises when [int]
    does. *)
Definition tts_params (cfg : voice_config) : exn + gmap string Z :=
  match int_of_float (times5 (default (Finite (4 # 5)) (tts_speed cfg))) with
  | inl e => inl e
  | inr spd =>
      inr (<["vol" := clamp 15 (default 5%Z (vol cfg))]>
           (<["spd" := clamp 9 spd]>
            (<["pit" := clamp 9 (default 5%Z (pit cfg))]>
             (<["per" := default 4%Z (tts_voice_name cfg)]> ∅))))
  end.

(** Lines 174-176. *)
Definition tts_language (cfg : voice_config) : string :=
  let language := default "zh" (language cfg) in
  if bool_decide (language ∈ ["zh"; "en"]) then language else "zh".

Definition synthesize_speech (cfg : voice_config)
    (synthesis_answer : exn + synth_result) (text : string)
    : M (option bytes) :=
  try_except
    (params ← answer (tts_params cfg);
     let language := tts_language cfg in
     emit (Synthesis text language 1 params);;
     result ← answer synthesis_answer;
     match result with
     | Audio data => mret (Some data)
     | ErrorDict d =>
         log Error (MsgTtsError (dict_get d "err_msg"));;
         log Debug (MsgTtsParams params (String.length text));;
         mret None
     end)
    (fun r => match r with
              | Exc e => log Error (MsgTtsFailed e);; mret None
              | Cancelled => raise Cancelled
              end).

Definition _play_audio (env : send_env) (audio_data : bytes) : M unit :=
  try_except
    (emit (PaOpenOutput 16000);;
     h ← answer (open_output env);
     emit (StreamWrite h audio_data);;
     answer_unit (write env);;
     emit (StreamStop h);;
     answer_unit (play_stop env);;
     emit (StreamClose h);;
     answer_unit (play_close env))
    (fun r => match r with
              | Exc e => log Error (MsgPlayFailed e)
              | Cancelled => raise Cancelled
              end).

(** [if audio_data:] is false for [None] and for the empty [bytes]. *)
Definition send (cfg : voice_config) (env : send_env) (msg : pymsg) : M bool :=
  try_except
    (let text := message_text msg in
     audio_data ← synthesize_speech cfg (synthesis env) text;
     match audio_data with
     | Some (b :: bs) =>
         log Info (MsgGenerated (length (b :: bs)));;
         _play_audio env (b :: bs);;
         mret true
     | _ =>
         log Error MsgSynthFailed;;
         mret false
     end)
    (fun r => match r with
              | Exc e => log Error (MsgSendFailed e);; mret false
              | Cancelled => raise Cancelled
              end).

End Synthesis.

(** ** Audio samples

    The capture stream is opened with [pyaudio.paInt16], one channel: a
    chunk is a sequence of signed 16-bit samples, two bytes each, low byte
    first as the recognizer expects its PCM input.  (The example windows
    below repeat one byte, so they read the same in either byte order.) *)

Definition byte_val (b : byte) : Z := Z.of_N (Byte.to_N b).

Definition sample_of (lo hi : byte) : Z :=
  let u := (byte_val lo + 256 * byte_val hi)%Z in
  if (u <? 32768)%Z then u else (u - 65536)%Z.

Fixpoint samples (data : bytes) : list Z :=
  match data with
  | lo :: hi :: rest => sample_of lo hi :: samples rest
  | _ => []
  end.

(** The largest sample magnitude of a window, 0 for a window without
    samples. *)
Definition peak_magnitude (window : list bytes) : Z :=
  fold_right Z.max 0%Z (map Z.abs (samples (concat window))).

(** The largest byte of a window, which is what [max(data)] looks at. *)
Definition peak_byte (window : list bytes) : N :=
  fold_right N.max 0%N (map Byte.to_N (concat window)).

(** ** Reading a run *)

(** The channel right after [start]: [_running] set, the task created, and
    [self.stream] still [None] as [__init__] left it. *)
Definition fresh : channel := Channel true None true.

Definition trace_of {A} (m : M A) (s : channel) : list event := (m s).2.
Definition result_of {A} (m : M A) (s : channel) : outcome A := (m s).1.1.
Definition state_of {A} (m : M A) (s : channel) : channel := (m s).1.2.

(** The provider calls and the playback writes found in a trace. *)
Definition synthesis_calls (t : list event)
    : list (string * string * Z * gmap string Z) :=
  omap (fun ev => match ev with
                  | Synthesis text lang ctp p => Some (text, lang, ctp, p)
                  | _ => None
                  end) t.

Definition writes (t : list event) : list (handle * bytes) :=
  omap (fun ev => match ev with
                  | StreamWrite h data => Some (h, data)
                  | _ => None
                  end) t.

Definition asr_calls (t : list event) : list bytes :=
  omap (fun ev => match ev with
                  | Asr audio _ _ _ => Some audio
                  | _ => None
                  end) t.

Definition published (t : list event) : list pyval :=
  omap (fun ev => match ev with
                  | HandleMessage _ _ content => Some content
                  | _ => None
                  end) t.

(** A parameter [k] of the dict [p] lies in [lo, hi]. *)
Definition param_within (p : gmap string Z) (k : string) (lo hi : Z) : Prop :=
  exists v, p !! k = Some v /\ (lo <= v <= hi)%Z.

(** All four voice parameters in the ranges written next to them in the
    source (0-15, 0-9, 0-9, 1-11). *)
Definition all_within_ranges (p : gmap string Z) : Prop :=
  param_within p "vol" 0 15 /\ param_within p "spd" 0 9 /\
  param_within p "pit" 0 9 /\ param_within p "per" 1 11.

(** What the code establishes: three clamped parameters, and the voice
    identity as configured. *)
Definition clamped_params (cfg : voice_config) (p : gmap string Z) : Prop :=
  param_within p "vol" 0 15 /\ param_within p "spd" 0 9 /\
  param_within p "pit" 0 9 /\
  p !! "per" = Some (default 4%Z (tts_voice_name cfg)).

(** ** Vocabulary of the statements *)

Definition is_playback_call (ev : event) : bool :=
  match ev with
  | PaOpenOutput _ | StreamWrite _ _ | StreamStop _ | StreamClose _ => true
  | _ => false
  end.

Definition is_log (ev : event) : bool :=
  match ev with Log _ _ => true | _ => false end.

(** What [recognize_speech] computes from the provider's answer. *)
Definition transcript (ans : exn + gmap string pyval) : pyval :=
  match ans with
  | inl _ => VNone
  | inr d =>
      if py_eq_int (dict_get d "err_no") 0
      then match subscript0 (dict_get d "result") with
           | inr v => v
           | inl _ => VNone
           end
      else VNone
  end.

(** The largest byte of a chunk. *)
Definition chunk_peak (data : bytes) : N :=
  fold_right N.max 0%N (map Byte.to_N data).

(** What one read contributes to the window. *)
Inductive chunk_step :=
| Kept (data : bytes)
| Dropped
| Failed (e : exn).

Definition classify (r : exn + bytes) : chunk_step :=
  match r with
  | inr (b :: bs) => Kept (b :: bs)
  | inr [] => Failed ValueError
  | inl (OSError []) => Failed IndexError
  | inl (OSError (a :: args)) =>
      if py_eq_int a (-9981) then Dropped else Failed (OSError (a :: args))
  | inl e => Failed e
  end.

(** The frames kept by the reads [i .. i+n-1]. *)
Fixpoint captured (env : listen_env) (i n : nat) : list bytes :=
  match n with
  | O => []
  | S n' =>
      match classify (read env i) with
      | Kept data => data :: captured env (S i) n'
      | _ => captured env (S i) n'
      end
  end.

Definition is_capture_event (ev : event) : bool :=
  match ev with
  | StreamRead _ _ | Log Warning MsgOverflow => true
  | _ => false
  end.

Definition sleeps (t : list event) : list Q :=
  omap (fun ev => match ev with Sleep d => Some d | _ => None end) t.

(** The cancellation points of a cycle, and a world that delivers no
    cancellation at any of them. *)
Definition cancels (env : listen_env) : Prop :=
  idle_cancelled env = true \/ backoff_cancelled env = true \/
  _handle_message env = Some Cancelled.

Definition uncancelled (env : listen_env) : Prop :=
  idle_cancelled env = false /\ backoff_cancelled env = false /\
  _handle_message env <> Some Cancelled.

(** The channel once the capture stream [h] has been assigned. *)
Definition with_stream (s : channel) (h : handle) : channel :=
  Channel (_running s) (Some h) (_recording_task s).

(** The window of a cycle, and its gate as the code computes it. *)
Definition window (env : listen_env) : list bytes :=
  captured env 0 chunks_per_window.

Definition gate (env : listen_env) : bool := (100 <? peak_byte (window env))%N.

(** No read of the window fails for good. *)
Definition window_completes (env : listen_env) : Prop :=
  forall j e, j < chunks_per_window -> classify (read env j) <> Failed e.

(** What the [except Exception] clause does after logging: nothing when
    [self.stream] is [None]; otherwise [stop_stream], then [close] unless
    [stop_stream] raised, then the back-off sleep. *)
Definition recovery (env : listen_env) (st : option handle) : list event :=
  match st with
  | None => []
  | Some h =>
      StreamStop h ::
      match stop_stream env with
      | None => [StreamClose h; Sleep 1]
      | Some _ => [Sleep 1]
      end
  end.

Definition overflow (args : list pyval) : exn := OSError (VInt (-9981) :: args).

(** ** Worlds used as examples *)

(** Two PortAudio errors, as PyAudio raises them. *)
Definition host_error : exn :=
  OSError [VInt (-9999); VStr "Unanticipated host error"].

Definition invalid_device : exn :=
  OSError [VInt (-9996); VStr "Invalid device"].

Definition cfg_defaults : voice_config := VoiceConfig None None None None None.

Definition cfg_voice_99 : voice_config :=
  VoiceConfig None None None (Some 99%Z) None.

(** A speaker that cannot be opened, after a successful synthesis. *)
Definition broken_speaker : send_env :=
  SendEnv (inr (Audio [x01; x02])) (inl invalid_device)
    None None None.

(** The provider answers with audio of length 0. *)
Definition empty_audio : send_env :=
  SendEnv (inr (Audio [])) (inr 3) None None None.

Definition working_speaker : send_env :=
  SendEnv (inr (Audio [x01; x02])) (inr 3) None None None.

Definition provider_error : send_env :=
  SendEnv (inr (ErrorDict (<["err_msg" := VStr "bad"]> ∅))) (inr 3)
    None None None.

(** The parameters built from an empty configuration. *)
Definition default_params : gmap string Z :=
  <["vol" := 5%Z]> (<["spd" := 4%Z]> (<["pit" := 5%Z]> (<["per" := 4%Z]> ∅))).

Definition asr_ok : gmap string pyval :=
  <["err_no" := VInt 0]> (<["result" := VList [VStr "ni hao"]]> ∅).

Definition asr_error : gmap string pyval :=
  <["err_no" := VInt 3301]> (<["err_msg" := VStr "speech quality error."]> ∅).

Definition asr_no_result : gmap string pyval := <["err_no" := VInt 0]> ∅.

(** 1024 samples of value -1: the faintest possible noise. *)
Definition hiss_chunk : bytes := repeat xff 2048.

Definition hiss : listen_env :=
  ListenEnv (inr 7) (fun _ => inr hiss_chunk) (inr asr_ok)
    None false None None false.

(** 1024 samples of value 25700 (bytes 0x64 0x64): close to full scale. *)
Definition loud_chunk : bytes := repeat x64 2048.

Definition loud : listen_env :=
  ListenEnv (inr 7) (fun _ => inr loud_chunk) (inr asr_ok)
    None false None None false.

(** A window whose first read overflows. *)
Definition one_overflow : listen_env :=
  ListenEnv (inr 7)
    (fun j => match j with
              | O => inl (overflow [VStr "Input overflowed"])
              | S _ => inr [x01; x00]
              end)
    (inr asr_ok) None false None None false.

(** A microphone that was unplugged after the stream was opened: the read
    fails, and so does [stop_stream]. *)
Definition unplugged : listen_env :=
  ListenEnv (inr 7)
    (fun _ => inl host_error)
    (inr asr_ok) None false
    (Some host_error) None false.

(** No audio input device. *)
Definition no_device : listen_env :=
  ListenEnv (inl invalid_device)
    (fun _ => inr hiss_chunk) (inr asr_ok) None false None None false.

(** ** Vocabulary of the further properties *)

(** More projections of a trace: bus publications with their addressing,
    recognizer requests with all their arguments, and the device calls. *)
Definition handle_calls (t : list event) : list (string * string * pyval) :=
  omap (fun ev => match ev with
                  | HandleMessage sender chat content =>
                      Some (sender, chat, content)
                  | _ => None
                  end) t.

Definition asr_requests (t : list event) : list (bytes * string * Z * Z) :=
  omap (fun ev => match ev with
                  | Asr audio fmt r pid => Some (audio, fmt, r, pid)
                  | _ => None
                  end) t.

Definition reads (t : list event) : list (handle * Z) :=
  omap (fun ev => match ev with
                  | StreamRead h n => Some (h, n)
                  | _ => None
                  end) t.

Definition stops (t : list event) : list handle :=
  omap (fun ev => match ev with StreamStop h => Some h | _ => None end) t.

Definition closes (t : list event) : list handle :=
  omap (fun ev => match ev with StreamClose h => Some h | _ => None end) t.

Definition input_opens (t : list event) : list (Z * Z) :=
  omap (fun ev => match ev with
                  | PaOpenInput r n => Some (r, n)
                  | _ => None
                  end) t.

Definition output_opens (t : list event) : list Z :=
  omap (fun ev => match ev with PaOpenOutput r => Some r | _ => None end) t.

Definition terminates (t : list event) : list unit :=
  omap (fun ev => match ev with PaTerminate => Some tt | _ => None end) t.

Definition task_cancels (t : list event) : list unit :=
  omap (fun ev => match ev with TaskCancel => Some tt | _ => None end) t.

(** [max(0, min(hi, x))] spelled by cases. *)
Definition saturate (hi x : Z) : Z :=
  if (x <? 0)%Z then 0%Z else if (hi <? x)%Z then hi else x.

(** The reads of the window of a cycle that opened stream [h]. *)
Definition capture_trace (env : listen_env) (h : handle) (s : channel)
    : list event :=
  trace_of (record_window env h 0 chunks_per_window [] false)
    (with_stream s h).

(** How a pass ends once the [except Exception] clause has run. *)
Definition after_failure (env : listen_env) (st : option handle)
    : outcome loop_ctl :=
  match st with
  | Some _ => if backoff_cancelled env then Raise Cancelled else Ret Continue
  | None => Ret Continue
  end.

(** A pass of the [while] body whose capture completed on stream [h], laid
    out case by case; [lg] stands for the log lines of
    [recognize_speech]. *)
Definition processed (env : listen_env) (s : channel) (h : handle)
    (lg : list event) : outcome loop_ctl * channel * list event :=
  let s1 := with_stream s h in
  let head :=
    PaOpenInput rate chunk :: Log Debug MsgListening :: capture_trace env h s in
  let idle := if idle_cancelled env then Ret Break else Ret Continue in
  if gate env then
    let tr := transcript (asr env) in
    let audio := concat (window env) in
    let pre :=
      head ++ Log Info (MsgRecorded (length audio))
           :: Asr audio "pcm" 16000 1537 :: lg in
    if truthy tr then
      let pub := [Log Info (MsgRecognized tr);
                  HandleMessage "voice_user" "voice_chat" tr] in
      match _handle_message env with
      | None => (idle, s1, pre ++ pub ++ [Sleep (1 # 2)])
      | Some Cancelled => (Ret Break, s1, pre ++ pub)
      | Some (Exc e) =>
          (after_failure env (Some h), s1,
           pre ++ pub ++ Log Error (MsgListenError e)
               :: recovery env (Some h))
      end
    else (idle, s1, pre ++ [Log Warning MsgNoSpeech; Sleep (1 # 2)])
  else (idle, s1, head ++ [Log Debug MsgNoVoice; Sleep (1 # 2)]).

(** A pass in which nothing fails and nothing is cancelled. *)
Definition uneventful (env : listen_env) : Prop :=
  (exists h, open_input env = inr h) /\ window_completes env /\
  _handle_message env = None /\ idle_cancelled env = false.

(** More worlds. *)
Definition cfg_nan_speed : voice_config :=
  VoiceConfig None (Some NaN) None None None.

Definition cfg_inf_speed : voice_config :=
  VoiceConfig None (Some Infinity) None None None.

(** A finite speed whose product by 5 is beyond the finite floats. *)
Definition cfg_huge_speed : voice_config :=
  VoiceConfig None (Some (Finite ((4 * 10 ^ 307)%Z # 1))) None None None.

Definition cfg_loud_voice : voice_config :=
  VoiceConfig (Some 40%Z) (Some (Finite 3)) (Some (-2)%Z) (Some 1%Z)
    (Some "fr").

(** A quiet room: every read returns two samples of value 1. *)
Definition quiet_room : listen_env :=
  ListenEnv (inr 7) (fun _ => inr [x01; x00; x01; x00]) (inr asr_ok)
    None false None None false.

(** Speech: the first chunk holds a byte above 100. *)
Definition speech : listen_env :=
  ListenEnv (inr 7)
    (fun j => match j with
              | O => inr [x00; x7f]
              | S _ => inr [x01; x00]
              end)
    (inr asr_ok) None false None None false.

(** Every read overflows. *)
Definition all_overflow : listen_env :=
  ListenEnv (inr 7) (fun _ => inl (overflow [VStr "Input overflowed"]))
    (inr asr_ok) None false None None false.

(** The third read returns an empty chunk after a loud first one. *)
Definition empty_chunk : listen_env :=
  ListenEnv (inr 7)
    (fun j => match j with
              | 0 => inr [x00; x7f]
              | 2 => inr []
              | _ => inr [x01; x00]
              end)
    (inr asr_ok) None false None None false.

(** [stop] arrives during the idle sleep of a quiet cycle. *)
Definition cancelled_idle : listen_env :=
  ListenEnv (inr 7) (fun _ => inr [x01; x00; x01; x00]) (inr asr_ok)
    None true None None false.

(** The channel after an earlier cycle that opened stream 5. *)
Definition opened_before : channel := Channel true (Some 5) true.

(** * Properties *)

(** ** The monad *)

Lemma run_bind {A B} (m : M A) (f : A -> M B) (s : channel) :
  (m ≫= f) s =
  match m s with
  | (Ret a, s1, t1) => let '(r, s2, t2) := f a s1 in (r, s2, t1 ++ t2)
  | (Raise e, s1, t1) => (Raise e, s1, t1)
  end.
Proof. reflexivity. Qed.

Lemma run_try_except {A} (body : M A) (handler : raised -> M A) s :
  try_except body handler s =
  match body s with
  | (Ret a, s1, t1) => (Ret a, s1, t1)
  | (Raise r, s1, t1) => let '(o, s2, t2) := handler r s1 in (o, s2, t1 ++ t2)
  end.
Proof. reflexivity. Qed.

Ltac unfold_monad :=
  unfold answer, answer_unit, suspend, log, emit, raise, try_except,
    get_stream, set_stream, get_running, set_running, get_recording_task,
    set_recording_task, mbind, M_bind, mret, M_ret in *.

(** ** Clamping *)

Lemma clamp_range (hi x : Z) : (0 <= hi)%Z -> (0 <= clamp hi x <= hi)%Z.
Proof. unfold clamp. lia. Qed.

Lemma clamp_id (hi x : Z) : (0 <= x <= hi)%Z -> clamp hi x = x.
Proof. unfold clamp. lia. Qed.

Lemma tts_params_clamped round64 cfg p :
  tts_params round64 cfg = inr p -> clamped_params cfg p.
Proof.
  unfold tts_params.
  destruct (int_of_float _) as [e | spd]; [discriminate |].
  intros [= <-]. unfold clamped_params, param_within.
  repeat split.
  - eexists. split; [reflexivity | apply clamp_range; lia].
  - eexists. split; [reflexivity | apply clamp_range; lia].
  - eexists. split; [reflexivity | apply clamp_range; lia].
Qed.

(** The language sent is always one of the two the source allows. *)
Lemma tts_language_allowed cfg : tts_language cfg ∈ ["zh"; "en"].
Proof.
  unfold tts_language. case_bool_decide; [done |]. by constructor.
Qed.

(** The provider is called at most once, with the text given, the
    normalised language, and the parameters of [tts_params]. *)
Lemma synthesize_speech_calls round64 cfg ans text s :
  synthesis_calls (trace_of (synthesize_speech round64 cfg ans text) s) =
  match tts_params round64 cfg with
  | inr p => [(text, tts_language cfg, 1%Z, p)]
  | inl _ => []
  end.
Proof.
  unfold trace_of, synthesize_speech. unfold_monad.
  destruct (tts_params round64 cfg) as [e | p]; [reflexivity |].
  destruct ans as [e | [data | d]]; reflexivity.
Qed.

(** ** Voice parameters reaching the provider *)

(** The four parameters are not all within their ranges for every
    configuration: with [tts_voice_name = 99] the dict sent is outside
    them. *)
Lemma voice_identity_not_clamped :
  ~ Forall all_within_ranges
      (map snd (synthesis_calls
         (trace_of (synthesize_speech (fun q => q) cfg_voice_99
                      (inr (Audio [x00])) "hello") fresh))).
Proof.
  rewrite synthesize_speech_calls.
  replace (tts_params (fun q => q) cfg_voice_99)
    with (inr (B := gmap string Z)
            (<["vol" := 5%Z]> (<["spd" := 4%Z]> (<["pit" := 5%Z]>
               (<["per" := 99%Z]> (∅ : gmap string Z)))))
         : exn + gmap string Z)
    by (vm_compute; reflexivity).
  cbn [map snd]. intros H.
  apply Forall_cons in H as [(_ & _ & _ & v & Hv & Hr) _].
  vm_compute in Hv. injection Hv as <-. lia.
Qed.

(** C3 at a failing input: with [tts_voice_name = 99] the provider is
    called with [per = 99], outside the range 1-11 that the source notes on
    that line; [vol], [spd] and [pit] go through [max]/[min], [per] is the
    one entry of the dict built without them. *)
Theorem out_of_range_voice_reaches_provider :
  synthesis_calls
    (trace_of (synthesize_speech (fun q => q) cfg_voice_99
                 (inr (Audio [x00])) "hello") fresh)
  = [("hello", "zh", 1%Z,
      <["vol" := 5%Z]> (<["spd" := 4%Z]> (<["pit" := 5%Z]>
        (<["per" := 99%Z]> (∅ : gmap string Z)))))] /\
  ~ (1 <= 99 <= 11)%Z.
Proof. split; [vm_compute; reflexivity | lia]. Qed.

(** What the code does establish: for every configuration, every rounding
    of the float product and every answer of the provider, each call of the
    provider made by [synthesize_speech] carries [vol] in [0,15], [spd] in
    [0,9] and [pit] in [0,9], next to the voice identity it read from the
    configuration. *)
Theorem synthesis_params_clamped (round64 : Q -> Q) (cfg : voice_config)
    (ans : exn + synth_result) (text : string) (s : channel) :
  Forall (clamped_params cfg)
    (map snd (synthesis_calls
       (trace_of (synthesize_speech round64 cfg ans text) s))).
Proof.
  rewrite synthesize_speech_calls.
  destruct (tts_params round64 cfg) as [e | p] eqn:E; cbn [map snd].
  - constructor.
  - constructor; [| constructor]. by eapply tts_params_clamped.
Qed.

(** ** [send] *)

(** [_play_audio] catches whatever the device raises: it always returns,
    and leaves the channel as it was. *)
Lemma play_audio_returns env data s :
  exists t, _play_audio env data s = (Ret tt, s, t).
Proof.
  unfold _play_audio. unfold_monad.
  destruct (open_output env); [eauto |].
  destruct (write env); [eauto |].
  destruct (play_stop env); [eauto |].
  destruct (play_close env); eauto.
Qed.

(** What [send] does once the synthesis stage has answered. *)
Lemma send_run round64 cfg env msg s :
  send round64 cfg env msg s =
  match synthesize_speech round64 cfg (synthesis env) (message_text msg) s with
  | (Ret (Some (b :: bs)), s1, t1) =>
      (Ret true, s1,
       t1 ++ Log Info (MsgGenerated (length (b :: bs)))
          :: trace_of (_play_audio env (b :: bs)) s1)
  | (Ret _, s1, t1) => (Ret false, s1, t1 ++ [Log Error MsgSynthFailed])
  | (Raise Cancelled, s1, t1) => (Raise Cancelled, s1, t1)
  | (Raise (Exc e), s1, t1) =>
      (Ret false, s1, t1 ++ [Log Error (MsgSendFailed e)])
  end.
Proof.
  unfold send. rewrite run_try_except, run_bind.
  destruct (synthesize_speech _ _ _ _ s) as [[[[[|b bs]|]|[|e]] s1] t1];
    try (cbn; rewrite ?app_nil_r; reflexivity).
  rewrite run_bind. cbn. rewrite run_bind. unfold trace_of.
  destruct (play_audio_returns env (b :: bs) s1) as [t2 ->].
  cbn. by rewrite app_nil_r.
Qed.

(** The synthesis stage never raises and leaves the channel alone; it
    yields audio exactly when the parameters could be built and the provider
    answered with audio. *)
Lemma synthesize_speech_run round64 cfg ans text s :
  exists t,
    synthesize_speech round64 cfg ans text s =
    (Ret (match tts_params round64 cfg, ans with
          | inr _, inr (Audio data) => Some data
          | _, _ => None
          end), s, t).
Proof.
  unfold synthesize_speech. unfold_monad.
  destruct (tts_params round64 cfg) as [e | p]; [eauto |].
  destruct ans as [e | [data | d]]; eauto.
Qed.

(** C4, as stated, fails: when the playback stream cannot be opened, nothing
    is written and [send] still returns [True]; [_play_audio] has its own
    [except Exception], so the failure never reaches [send]. *)
Lemma send_true_when_playback_fails :
  open_output broken_speaker = inl invalid_device /\
  writes (trace_of (send (fun q => q) cfg_defaults broken_speaker
                      (MsgText "hello")) fresh) = [] /\
  result_of (send (fun q => q) cfg_defaults broken_speaker
               (MsgText "hello")) fresh = Ret true.
Proof. split_and!; vm_compute; reflexivity. Qed.

(** C4, amended: for every message and every outcome of the synthesis and
    playback stages, [send] returns a boolean and never raises; it returns
    [True] exactly when the provider was called and answered with non-empty
    audio, and [False] on a synthesis failure or an empty result.  A playback
    failure is caught and logged by [_play_audio] and does not change the
    value returned. *)
Theorem send_returns_bool (round64 : Q -> Q) (cfg : voice_config)
    (env : send_env) (msg : pymsg) (s : channel) :
  exists b : bool,
    result_of (send round64 cfg env msg) s = Ret b /\
    (b = true <->
     exists p data,
       tts_params round64 cfg = inr p /\
       synthesis env = inr (Audio data) /\ data <> []).
Proof.
  unfold result_of. rewrite send_run.
  destruct (synthesize_speech_run round64 cfg (synthesis env)
              (message_text msg) s) as [t ->].
  destruct (tts_params round64 cfg) as [e | p].
  - exists false. split; [reflexivity |]. split; [done |].
    by intros (? & ? & ? & _).
  - destruct (synthesis env) as [e | [[| b bs] | d]].
    + exists false. split; [reflexivity |]. split; [done |].
      by intros (? & ? & _ & ? & _).
    + exists false. split; [reflexivity |]. split; [done |].
      intros (? & ? & _ & [= <-] & ?). done.
    + exists true. split; [reflexivity |]. split; [| done].
      intros _. by exists p, (b :: bs).
    + exists false. split; [reflexivity |]. split; [done |].
      by intros (? & ? & _ & ? & _).
Qed.

(** C5, as stated, fails for N = 0: the empty [bytes] is falsy, so [send]
    returns [False] and writes nothing.  It also needs the playback stream to
    open: with [broken_speaker] the two bytes are never written. *)
Lemma send_empty_audio_not_played :
  result_of (synthesize_speech (fun q => q) cfg_defaults
               (synthesis empty_audio) "hello") fresh = Ret (Some []) /\
  result_of (send (fun q => q) cfg_defaults empty_audio (MsgText "hello"))
    fresh = Ret false /\
  writes (trace_of (send (fun q => q) cfg_defaults empty_audio
                      (MsgText "hello")) fresh) = [] /\
  result_of (synthesize_speech (fun q => q) cfg_defaults
               (synthesis broken_speaker) "hello") fresh
    = Ret (Some [x01; x02]) /\
  writes (trace_of (send (fun q => q) cfg_defaults broken_speaker
                      (MsgText "hello")) fresh) = [].
Proof. split_and!; vm_compute; reflexivity. Qed.

Lemma writes_app t1 t2 : writes (t1 ++ t2) = writes t1 ++ writes t2.
Proof. unfold writes. apply omap_app. Qed.

Lemma synthesize_speech_no_device round64 cfg ans text s :
  Forall (fun ev => is_playback_call ev = false)
    (trace_of (synthesize_speech round64 cfg ans text) s).
Proof.
  unfold trace_of, synthesize_speech. unfold_monad.
  destruct (tts_params round64 cfg) as [e | p]; [by repeat constructor |].
  destruct ans as [e | [data | d]]; by repeat constructor.
Qed.

Lemma no_playback_no_writes t :
  Forall (fun ev => is_playback_call ev = false) t -> writes t = [].
Proof.
  induction 1 as [| ev t Hev _ IH]; [reflexivity |].
  unfold writes in *. cbn. rewrite IH. by destruct ev.
Qed.

(** C5, amended: if the synthesis stage returns N >= 1 audio bytes and the
    playback stream opens, [send] makes exactly one playback write, of
    exactly those bytes, and returns [True]; if the provider answers with an
    error dict, [send] returns [False] and makes no playback call at all. *)
Theorem send_plays_once (round64 : Q -> Q) (cfg : voice_config)
    (env : send_env) (msg : pymsg) (s : channel) :
  (forall data h,
     result_of (synthesize_speech round64 cfg (synthesis env)
                  (message_text msg)) s = Ret (Some data) ->
     data <> [] ->
     open_output env = inr h ->
     result_of (send round64 cfg env msg) s = Ret true /\
     writes (trace_of (send round64 cfg env msg) s) = [(h, data)]) /\
  (forall d,
     synthesis env = inr (ErrorDict d) ->
     result_of (send round64 cfg env msg) s = Ret false /\
     Forall (fun ev => is_playback_call ev = false)
       (trace_of (send round64 cfg env msg) s)).
Proof.
  pose proof (synthesize_speech_no_device round64 cfg (synthesis env)
                (message_text msg) s) as Hdev.
  unfold result_of, trace_of in *. rewrite send_run.
  destruct (synthesize_speech_run round64 cfg (synthesis env)
              (message_text msg) s) as [t Hrun].
  rewrite Hrun in *. cbn [fst snd] in *. split.
  - intros data h [= Hdata] Hne Hopen. rewrite Hdata.
    destruct data as [| b bs]; [done |]. cbn [fst snd]. split; [done |].
    rewrite writes_app, (no_playback_no_writes t Hdev). cbn [app].
    unfold _play_audio, trace_of. unfold_monad. rewrite Hopen.
    destruct (write env); [reflexivity |].
    destruct (play_stop env); [reflexivity |].
    destruct (play_close env); reflexivity.
  - intros d ->.
    destruct (tts_params round64 cfg); cbn [fst snd]; (split; [done |]);
      apply Forall_app; (split; [done | by repeat constructor]).
Qed.

Lemma send_plays_once_witness :
  (result_of (send (fun q => q) cfg_defaults working_speaker
                (MsgText "hello")) fresh = Ret true /\
   writes (trace_of (send (fun q => q) cfg_defaults working_speaker
                       (MsgText "hello")) fresh) = [(3, [x01; x02])]) /\
  (result_of (send (fun q => q) cfg_defaults provider_error
                (MsgText "hello")) fresh = Ret false /\
   Forall (fun ev => is_playback_call ev = false)
     (trace_of (send (fun q => q) cfg_defaults provider_error
                  (MsgText "hello")) fresh)).
Proof.
  split.
  - apply (proj1 (send_plays_once (fun q => q) cfg_defaults working_speaker
                    (MsgText "hello") fresh) [x01; x02] 3).
    + vm_compute; reflexivity.
    + discriminate.
    + reflexivity.
  - apply (proj2 (send_plays_once (fun q => q) cfg_defaults provider_error
                    (MsgText "hello") fresh)
             (<["err_msg" := VStr "bad"]> ∅)).
    reflexivity.
Defined.

Lemma synthesis_calls_app t1 t2 :
  synthesis_calls (t1 ++ t2) = synthesis_calls t1 ++ synthesis_calls t2.
Proof. unfold synthesis_calls. apply omap_app. Qed.

Lemma play_audio_no_synthesis env data s :
  synthesis_calls (trace_of (_play_audio env data) s) = [].
Proof.
  unfold _play_audio, trace_of. unfold_monad.
  destruct (open_output env); [reflexivity |].
  destruct (write env); [reflexivity |].
  destruct (play_stop env); [reflexivity |].
  destruct (play_close env); reflexivity.
Qed.

(** The provider calls of [send] are those of its synthesis stage, run on
    the text extracted from the message. *)
Lemma send_synthesis_calls round64 cfg env msg s :
  synthesis_calls (trace_of (send round64 cfg env msg) s) =
  synthesis_calls
    (trace_of (synthesize_speech round64 cfg (synthesis env)
                 (message_text msg)) s).
Proof.
  unfold trace_of at 1. rewrite send_run.
  destruct (synthesize_speech_run round64 cfg (synthesis env)
              (message_text msg) s) as [t Hrun].
  unfold trace_of. rewrite Hrun. cbn [snd].
  destruct (match tts_params round64 cfg with inl _ => _ | inr _ => _ end)
    as [[| b bs] |]; cbn [snd]; rewrite synthesis_calls_app.
  - cbn. apply app_nil_r.
  - change (synthesis_calls (_ :: ?t)) with (synthesis_calls t).
    fold (trace_of (_play_audio env (b :: bs)) s).
    rewrite play_audio_no_synthesis. apply app_nil_r.
  - cbn. apply app_nil_r.
Qed.

(** C10: [send] treats a message with a [content] attribute exactly as the
    plain string [msg.content], and one without as the plain string
    [str(msg)]; and for a plain string [text] the synthesis stage calls the
    provider with exactly [text] (the call is made unless the voice
    parameters cannot be built, in which case there is none). *)
Theorem send_synthesizes_message_text (round64 : Q -> Q)
    (cfg : voice_config) (env : send_env) (s : channel) :
  (forall content str,
     send round64 cfg env (MsgObject (Some content) str) s =
     send round64 cfg env (MsgText content) s) /\
  (forall str,
     send round64 cfg env (MsgObject None str) s =
     send round64 cfg env (MsgText str) s) /\
  (forall text,
     synthesis_calls (trace_of (send round64 cfg env (MsgText text)) s) =
     match tts_params round64 cfg with
     | inr p => [(text, tts_language cfg, 1%Z, p)]
     | inl _ => []
     end).
Proof.
  split; [| split].
  - intros content str. by rewrite !send_run.
  - intros str. by rewrite !send_run.
  - intros text. by rewrite send_synthesis_calls, synthesize_speech_calls.
Qed.

(** [send("hello")] with the default configuration. *)
Example send_hello :
  synthesis_calls
    (trace_of (send (fun q => q) cfg_defaults working_speaker
                 (MsgText "hello")) fresh)
  = [("hello", "zh", 1%Z, default_params)].
Proof. vm_compute. reflexivity. Qed.

(** ** [recognize_speech] *)

(** A run of [recognize_speech]: one provider call with the audio it was
    given, then log lines only; it returns, and does not touch the
    channel. *)
Lemma recognize_speech_run ans audio s :
  exists lg,
    recognize_speech ans audio s =
    (Ret (transcript ans), s, Asr audio "pcm" 16000 1537 :: lg) /\
    Forall (fun ev => is_log ev = true) lg.
Proof.
  unfold recognize_speech, transcript. unfold_monad.
  destruct ans as [e | d]; cbn.
  - eexists. split; [reflexivity |]. by repeat constructor.
  - destruct (py_eq_int (dict_get d "err_no") 0); cbn.
    + destruct (subscript0 (dict_get d "result")); cbn;
        eexists; (split; [reflexivity |]); by repeat constructor.
    + eexists. split; [reflexivity |]. by repeat constructor.
Qed.

(** C6: [recognize_speech] returns the first element of the result list
    when [err_no] is 0 and the list is not empty; it returns [None] when
    [err_no] is anything else, when the result is missing or empty, and when
    the provider call raises; it never raises itself. *)
Theorem recognize_speech_result (ans : exn + gmap string pyval)
    (audio : bytes) (s : channel) :
  (forall d x xs,
     ans = inr d -> d !! "err_no" = Some (VInt 0) ->
     d !! "result" = Some (VList (x :: xs)) ->
     result_of (recognize_speech ans audio) s = Ret x) /\
  (forall d,
     ans = inr d -> d !! "err_no" <> Some (VInt 0) ->
     result_of (recognize_speech ans audio) s = Ret VNone) /\
  (forall d,
     ans = inr d ->
     d !! "result" = None \/ d !! "result" = Some (VList []) ->
     result_of (recognize_speech ans audio) s = Ret VNone) /\
  (forall e,
     ans = inl e ->
     result_of (recognize_speech ans audio) s = Ret VNone) /\
  (exists v, result_of (recognize_speech ans audio) s = Ret v).
Proof.
  unfold result_of.
  destruct (recognize_speech_run ans audio s) as (lg & Hrun & _).
  rewrite Hrun. cbn [fst]. unfold transcript, dict_get. repeat split.
  - intros d x xs -> -> ->. reflexivity.
  - intros d -> Hno.
    destruct (d !! "err_no") as [[| z | |] |]; try reflexivity.
    cbn. destruct (Z.eqb_spec z 0) as [-> | _]; [done | reflexivity].
  - intros d -> Hres.
    destruct (py_eq_int (default VNone (d !! "err_no")) 0); [| reflexivity].
    by destruct Hres as [-> | ->].
  - by intros e ->.
  - by eexists.
Qed.

Lemma recognize_speech_result_witness :
  result_of (recognize_speech (inr asr_ok) [x01]) fresh = Ret (VStr "ni hao") /\
  result_of (recognize_speech (inr asr_error) [x01]) fresh = Ret VNone /\
  result_of (recognize_speech (inr asr_no_result) [x01]) fresh = Ret VNone /\
  result_of (recognize_speech (inl TypeError) [x01]) fresh = Ret VNone.
Proof.
  split; [| split; [| split]].
  - apply (proj1 (recognize_speech_result (inr asr_ok) [x01] fresh)
             asr_ok (VStr "ni hao") []); reflexivity.
  - apply (proj1 (proj2 (recognize_speech_result (inr asr_error) [x01] fresh))
             asr_error); [reflexivity | vm_compute; discriminate].
  - apply (proj1 (proj2 (proj2
             (recognize_speech_result (inr asr_no_result) [x01] fresh)))
             asr_no_result); [reflexivity | left; reflexivity].
  - apply (proj1 (proj2 (proj2 (proj2
             (recognize_speech_result (inl TypeError) [x01] fresh))))
             TypeError); reflexivity.
Defined.

(** ** Capture of a window *)

Lemma fold_left_max_acc (l : list N) (a : N) :
  fold_left N.max l a = N.max a (fold_right N.max 0%N l).
Proof.
  revert a. induction l as [| x l IH]; intros a; cbn.
  - lia.
  - rewrite IH. lia.
Qed.

Lemma py_max_peak (b : byte) (bs : bytes) :
  py_max (b :: bs) = inr (chunk_peak (b :: bs)).
Proof. unfold py_max, chunk_peak. cbn. by rewrite fold_left_max_acc. Qed.

Lemma peak_byte_app (w1 w2 : list bytes) :
  peak_byte (w1 ++ w2) = N.max (peak_byte w1) (peak_byte w2).
Proof.
  unfold peak_byte. rewrite concat_app, map_app, fold_right_app.
  induction (map Byte.to_N (concat w1)) as [| x l IH]; cbn; lia.
Qed.

Lemma peak_byte_single (data : bytes) : peak_byte [data] = chunk_peak data.
Proof. unfold peak_byte, chunk_peak. cbn. by rewrite app_nil_r. Qed.

(** The largest byte of a window exceeds a bound exactly when one of its
    bytes does. *)
Lemma peak_byte_above (w : list bytes) (k : N) :
  (k < peak_byte w)%N <-> exists b, In b (concat w) /\ (k < Byte.to_N b)%N.
Proof.
  unfold peak_byte. induction (concat w) as [| x l IH]; cbn.
  - split; [lia | by intros (? & [] & _)].
  - split.
    + intros H. destruct (N.ltb_spec k (Byte.to_N x)).
      * exists x. auto.
      * destruct (proj1 IH) as (b & Hb & Hk); [lia |]. exists b. auto.
    + intros (b & [<- | Hb] & Hk); [lia |].
      assert (k < fold_right N.max 0 (map Byte.to_N l))%N
        by (apply IH; eauto). lia.
Qed.

Lemma read_chunk_run env h i frames hv s :
  read_chunk env h i frames hv s =
  match classify (read env i) with
  | Kept data =>
      (Ret (frames ++ [data], hv || (100 <? chunk_peak data)%N), s,
       [StreamRead h chunk])
  | Dropped =>
      (Ret (frames, hv), s, [StreamRead h chunk; Log Warning MsgOverflow])
  | Failed e => (Raise (Exc e), s, [StreamRead h chunk])
  end.
Proof.
  unfold read_chunk, classify. unfold_monad.
  destruct (read env i) as [[[| a args] | | | | |] | [| b bs]]; try reflexivity.
  - cbn. destruct (py_eq_int a (-9981)); reflexivity.
  - rewrite py_max_peak. cbn.
    destruct (100 <? _)%N; by rewrite ?orb_true_r, ?orb_false_r.
Qed.

(** A run of the [for] loop: it leaves the channel alone, its trace holds
    reads and overflow warnings only, it can only raise an [Exception], and
    when it completes it has appended the kept frames and raised the flag
    exactly when one of their bytes exceeds 100. *)
Lemma record_window_run env h n : forall i frames hv s,
  exists r t,
    record_window env h i n frames hv s = (r, s, t) /\
    Forall (fun ev => is_capture_event ev = true) t /\
    match r with
    | Ret (frames', hv') =>
        frames' = frames ++ captured env i n /\
        hv' = hv || (100 <? peak_byte (captured env i n))%N
    | Raise r => exists e, r = Exc e
    end.
Proof.
  induction n as [| n IH]; intros i frames hv s.
  - exists (Ret (frames, hv)), []. cbn. rewrite app_nil_r, orb_false_r.
    repeat split; constructor.
  - cbn [record_window captured]. rewrite run_bind, read_chunk_run.
    destruct (classify (read env i)) as [data | | e].
    + destruct (IH (S i) (frames ++ [data])
                  (hv || (100 <? chunk_peak data)%N) s)
        as (r & t & -> & Ht & Hr).
      exists r, (StreamRead h chunk :: t). repeat split; [by constructor |].
      destruct r as [[frames' hv'] |]; [| done].
      destruct Hr as [-> ->]. split; [by rewrite <- app_assoc |].
      change (data :: captured env (S i) n)
        with ([data] ++ captured env (S i) n).
      rewrite peak_byte_app, peak_byte_single, <- orb_assoc. f_equal.
      destruct (N.ltb_spec 100 (chunk_peak data)),
        (N.ltb_spec 100 (peak_byte (captured env (S i) n))),
        (N.ltb_spec 100 (N.max (chunk_peak data)
                           (peak_byte (captured env (S i) n))));
        try reflexivity; lia.
    + destruct (IH (S i) frames hv s) as (r & t & -> & Ht & Hr).
      exists r, (StreamRead h chunk :: Log Warning MsgOverflow :: t).
      repeat split; [by repeat constructor | done].
    + exists (Raise (Exc e)), [StreamRead h chunk].
      repeat split; [by repeat constructor | by eexists].
Qed.

(** ** One cycle of the listen loop *)

Lemma asr_calls_app t1 t2 : asr_calls (t1 ++ t2) = asr_calls t1 ++ asr_calls t2.
Proof. unfold asr_calls. apply omap_app. Qed.

Lemma published_app t1 t2 : published (t1 ++ t2) = published t1 ++ published t2.
Proof. unfold published. apply omap_app. Qed.

Lemma sleeps_app t1 t2 : sleeps (t1 ++ t2) = sleeps t1 ++ sleeps t2.
Proof. unfold sleeps. apply omap_app. Qed.

Lemma logs_are_silent lg :
  Forall (fun ev => is_log ev = true) lg ->
  asr_calls lg = [] /\ published lg = [] /\ sleeps lg = [].
Proof.
  induction 1 as [| ev lg Hev _ (IH1 & IH2 & IH3)]; [done |].
  destruct ev; try discriminate. by cbn.
Qed.

Lemma capture_is_silent t :
  Forall (fun ev => is_capture_event ev = true) t ->
  asr_calls t = [] /\ published t = [] /\ sleeps t = [].
Proof.
  induction 1 as [| ev t Hev _ (IH1 & IH2 & IH3)]; [done |].
  destruct ev; try discriminate; by cbn.
Qed.

(** A run of the part after the capture: the recognizer is called exactly
    when the flag is up, with the concatenated frames; the transcript is
    published exactly when it is truthy; a run that returns has slept the
    idle delay; the only things raised are a cancellation delivered at an
    [await] and what [_handle_message] raises. *)
Lemma process_window_run env frames hv s :
  exists o t,
    process_window env frames hv s = (o, s, t) /\
    asr_calls t = (if hv then [concat frames] else []) /\
    published t =
      (if hv && truthy (transcript (asr env))
       then [transcript (asr env)] else []) /\
    match o with
    | Ret _ => sleeps t = [1 # 2] /\ idle_cancelled env = false
    | Raise Cancelled => cancels env
    | Raise (Exc e) => _handle_message env = Some (Exc e) /\ sleeps t = []
    end.
Proof.
  unfold process_window, cancels. destruct hv; cbn [andb].
  - rewrite run_bind, run_bind. cbn [log emit]. rewrite run_bind.
    destruct (recognize_speech_run (asr env) (concat frames) s)
      as (lg & -> & Hlg).
    apply logs_are_silent in Hlg as (Ha & Hp & Hs).
    destruct (truthy (transcript (asr env))).
    + unfold_monad.
      destruct (_handle_message env) as [[| e] |], (idle_cancelled env);
        cbn; eexists _, _; (split; [reflexivity |]);
        rewrite ?asr_calls_app, ?published_app, ?sleeps_app, ?Ha, ?Hp, ?Hs;
        cbn; rewrite ?asr_calls_app, ?published_app, ?sleeps_app, ?Ha, ?Hp,
          ?Hs; auto.
    + unfold_monad.
      destruct (idle_cancelled env);
        cbn; eexists _, _; (split; [reflexivity |]);
        rewrite ?asr_calls_app, ?published_app, ?sleeps_app, ?Ha, ?Hp, ?Hs;
        cbn; rewrite ?asr_calls_app, ?published_app, ?sleeps_app, ?Ha, ?Hp,
          ?Hs; auto.
  - unfold_monad. destruct (idle_cancelled env); cbn; eexists _, _; auto.
Qed.

Lemma record_window_completes env h n : forall i frames hv s,
  (forall j e, i <= j < i + n -> classify (read env j) <> Failed e) ->
  exists frames' hv' t,
    record_window env h i n frames hv s = (Ret (frames', hv'), s, t).
Proof.
  induction n as [| n IH]; intros i frames hv s Hok.
  - by eexists _, _, _.
  - cbn [record_window]. rewrite run_bind, read_chunk_run.
    destruct (classify (read env i)) as [data | | e] eqn:E.
    + destruct (IH (S i) (frames ++ [data])
                  (hv || (100 <? chunk_peak data)%N) s)
        as (f & v & t & ->); [intros; apply Hok; lia |]. by eexists _, _, _.
    + destruct (IH (S i) frames hv s) as (f & v & t & ->);
        [intros; apply Hok; lia |]. by eexists _, _, _.
    + exfalso. apply (Hok i e); [lia | done].
Qed.

(** A run of the [try] block.  When the device cannot be opened, nothing
    else happens and [self.stream] keeps its value.  Otherwise the stream is
    assigned, and either the capture raises, or the window is processed. *)
Lemma listen_cycle_run env s :
  match open_input env with
  | inl e => listen_cycle env s = (Raise (Exc e), s, [PaOpenInput rate chunk])
  | inr h =>
      exists wt,
        Forall (fun ev => is_capture_event ev = true) wt /\
        ((exists e,
            ~ window_completes env /\
            listen_cycle env s =
            (Raise (Exc e), with_stream s h,
             PaOpenInput rate chunk :: Log Debug MsgListening :: wt)) \/
         (exists o pt,
            process_window env (window env) (gate env) (with_stream s h)
              = (o, with_stream s h, pt) /\
            listen_cycle env s =
            (o, with_stream s h,
             PaOpenInput rate chunk :: Log Debug MsgListening :: wt ++ pt)))
  end.
Proof.
  unfold listen_cycle.
  destruct (open_input env) as [e | h]; [reflexivity |].
  rewrite run_bind. cbn [emit]. rewrite run_bind. cbn [answer mret M_ret].
  rewrite run_bind. cbn [set_stream]. rewrite run_bind. cbn [log emit].
  rewrite run_bind. fold (with_stream s h).
  destruct (record_window_run env h chunks_per_window 0 [] false
              (with_stream s h)) as (r & wt & Hrun & Hwt & Hr).
  rewrite Hrun. exists wt. split; [done |].
  destruct r as [[frames hv] | r].
  - right. destruct Hr as [-> ->]. cbn [app orb]. fold (window env) (gate env).
    destruct (process_window_run env (window env) (gate env) (with_stream s h))
      as (o & pt & Hp & _).
    exists o, pt. split; [done |]. by rewrite Hp.
  - left. destruct Hr as [e ->]. exists e. split; [| reflexivity].
    intros Hc.
    destruct (record_window_completes env h chunks_per_window 0 [] false
                (with_stream s h)) as (f & v & t & Hrun').
    { intros j e' Hj. apply Hc. lia. }
    congruence.
Qed.

Lemma listen_iteration_run env s :
  listen_iteration env s =
  match listen_cycle env s with
  | (Ret _, s1, t1) => (Ret Continue, s1, t1)
  | (Raise Cancelled, s1, t1) => (Ret Break, s1, t1)
  | (Raise (Exc e), s1, t1) =>
      (match stream s1 with
       | Some _ => if backoff_cancelled env then Raise Cancelled
                   else Ret Continue
       | None => Ret Continue
       end, s1,
       t1 ++ Log Error (MsgListenError e) :: recovery env (stream s1))
  end.
Proof.
  unfold listen_iteration, recovery. rewrite run_try_except, run_bind.
  destruct (listen_cycle env s) as [[[[] | [| e]] s1] t1].
  - cbn. by rewrite app_nil_r.
  - cbn. by rewrite app_nil_r.
  - unfold_monad. cbn.
    destruct (stream s1) as [h |]; [| reflexivity].
    destruct (stop_stream env), (close env), (backoff_cancelled env);
      reflexivity.
Qed.

Lemma recovery_sleeps env h t1 m :
  sleeps (t1 ++ Log Error m :: recovery env (Some h)) <> [].
Proof.
  rewrite sleeps_app. intros H. apply app_eq_nil in H as [_ H].
  unfold recovery in H. by destruct (stop_stream env).
Qed.

(** Summary of one pass of the [while] body. *)
Lemma listen_iteration_summary env s :
  exists c s1 t,
    listen_iteration env s = (c, s1, t) /\
    _running s1 = _running s /\
    match c with
    | Ret Continue =>
        sleeps t <> [] \/
        (stream s = None /\ exists e, open_input env = inl e)
    | Ret Break => cancels env
    | Raise Cancelled => backoff_cancelled env = true
    | Raise (Exc _) => False
    end.
Proof.
  rewrite listen_iteration_run.
  pose proof (listen_cycle_run env s) as Hc.
  destruct (open_input env) as [e | h].
  - rewrite Hc. destruct (stream s) as [h |] eqn:Es.
    + destruct (backoff_cancelled env) eqn:Eb.
      * eexists _, _, _. split; [reflexivity |]. split; [done |]. done.
      * eexists _, _, _. split; [reflexivity |]. split; [done |]. left.
        apply recovery_sleeps.
    + eexists _, _, _. split; [reflexivity |]. split; [done |]. right. eauto.
  - destruct Hc as (wt & Hwt & [(e & _ & ->) | (o & pt & Hp & ->)]).
    + cbn [stream with_stream].
      destruct (backoff_cancelled env) eqn:Eb.
      * eexists _, _, _. split; [reflexivity |]. split; [done |]. done.
      * eexists _, _, _. split; [reflexivity |]. split; [done |]. left.
        apply recovery_sleeps.
    + destruct (process_window_run env (window env) (gate env)
                  (with_stream s h)) as (o' & pt' & Hp' & _ & _ & Ho).
      rewrite Hp in Hp'. injection Hp' as <- <-.
      apply capture_is_silent in Hwt as (_ & _ & Hs).
      destruct o as [[] | [| e]].
      * eexists _, _, _. split; [reflexivity |]. split; [done |]. left.
        destruct Ho as [Ho _]. cbn. rewrite sleeps_app, Hs, Ho. done.
      * eexists _, _, _. split; [reflexivity |]. split; [done |]. done.
      * cbn [stream with_stream].
        destruct (backoff_cancelled env) eqn:Eb.
        -- eexists _, _, _. split; [reflexivity |]. split; [done |]. done.
        -- eexists _, _, _. split; [reflexivity |]. split; [done |]. left.
           apply recovery_sleeps.
Qed.

(** ** The gate, as the code computes it

    [max(data)] ranges over the bytes of the chunk, so the flag depends on
    the largest byte of the window. *)

Lemma handler_is_silent env st t1 m :
  asr_calls (t1 ++ Log Error m :: recovery env st) = asr_calls t1 /\
  published (t1 ++ Log Error m :: recovery env st) = published t1.
Proof.
  rewrite asr_calls_app, published_app.
  assert (asr_calls (Log Error m :: recovery env st) = [] /\
          published (Log Error m :: recovery env st) = []) as [-> ->].
  { destruct st as [h |]; [| done]. unfold recovery.
    by destruct (stop_stream env). }
  by rewrite !app_nil_r.
Qed.

Lemma cycle_prefix_silent wt pt :
  Forall (fun ev => is_capture_event ev = true) wt ->
  asr_calls (PaOpenInput rate chunk :: Log Debug MsgListening :: wt ++ pt)
    = asr_calls pt /\
  published (PaOpenInput rate chunk :: Log Debug MsgListening :: wt ++ pt)
    = published pt.
Proof.
  intros (Ha & Hp & _)%capture_is_silent.
  change (PaOpenInput rate chunk :: Log Debug MsgListening :: wt ++ pt)
    with ([PaOpenInput rate chunk; Log Debug MsgListening] ++ wt ++ pt).
  by rewrite !asr_calls_app, !published_app, Ha, Hp.
Qed.

(** With no byte above 100 in the kept frames, a cycle calls no recognizer
    and publishes nothing, whatever else happens in it. *)
Lemma gate_closed_on_bytes env s :
  (peak_byte (window env) <= 100)%N ->
  asr_calls (trace_of (listen_iteration env) s) = [] /\
  published (trace_of (listen_iteration env) s) = [].
Proof.
  intros Hpeak. assert (Hg : gate env = false).
  { unfold gate. apply N.ltb_ge. done. }
  unfold trace_of. rewrite listen_iteration_run.
  pose proof (listen_cycle_run env s) as Hc.
  destruct (open_input env) as [e | h].
  - rewrite Hc. cbn [snd].
    by destruct (handler_is_silent env (stream s) [PaOpenInput rate chunk]
                   (MsgListenError e)) as [-> ->].
  - destruct Hc as (wt & Hwt & [(e & _ & ->) | (o & pt & Hp & ->)]).
    + cbn [snd].
      destruct (handler_is_silent env (stream (with_stream s h))
                  (PaOpenInput rate chunk :: Log Debug MsgListening :: wt)
                  (MsgListenError e)) as [-> ->].
      destruct (cycle_prefix_silent wt [] Hwt) as [Ha Hp].
      rewrite app_nil_r in Ha, Hp. by rewrite Ha, Hp.
    + destruct (process_window_run env (window env) (gate env)
                  (with_stream s h)) as (o' & pt' & Hp' & Hpa & Hpp & _).
      rewrite Hp in Hp'. injection Hp' as <- <-.
      rewrite Hg in Hpa, Hpp. cbn [andb] in Hpp.
      destruct (cycle_prefix_silent wt pt Hwt) as [Ha Hpb].
      rewrite Hpa in Ha. rewrite Hpp in Hpb.
      destruct o as [[] | [| e]]; cbn [snd]; [done | done |].
      destruct (handler_is_silent env (stream (with_stream s h))
                  (PaOpenInput rate chunk :: Log Debug MsgListening
                     :: wt ++ pt)
                  (MsgListenError e)) as [-> ->].
      done.
Qed.

(** With a byte above 100 in a window whose capture completes, a cycle
    calls the recognizer exactly once, on the concatenated frames. *)
Lemma gate_open_on_bytes env s h :
  open_input env = inr h ->
  window_completes env ->
  (100 < peak_byte (window env))%N ->
  asr_calls (trace_of (listen_iteration env) s) = [concat (window env)].
Proof.
  intros Hopen Hcomp Hpeak. assert (Hg : gate env = true).
  { unfold gate. apply N.ltb_lt. done. }
  unfold trace_of. rewrite listen_iteration_run.
  pose proof (listen_cycle_run env s) as Hc. rewrite Hopen in Hc.
  destruct Hc as (wt & Hwt & [(e & Hn & _) | (o & pt & Hp & ->)]); [done |].
  destruct (process_window_run env (window env) (gate env)
              (with_stream s h)) as (o' & pt' & Hp' & Hpa & _ & _).
  rewrite Hp in Hp'. injection Hp' as <- <-. rewrite Hg in Hpa.
  destruct (cycle_prefix_silent wt pt Hwt) as [Ha _]. rewrite Hpa in Ha.
  destruct o as [[] | [| e]]; cbn [snd]; [done | done |].
  by destruct (handler_is_silent env (stream (with_stream s h))
                 (PaOpenInput rate chunk :: Log Debug MsgListening
                    :: wt ++ pt)
                 (MsgListenError e)) as [-> _].
Qed.

(** ** The gate against sample magnitudes *)

(** C1 at a failing input: every sample of the window is -1, so the largest
    sample magnitude is 1, far below 100; yet each byte is 255, the gate
    opens, the recognizer is called with the 46 chunks of 2048 bytes and
    its answer is published. *)
Theorem quiet_window_is_recognized :
  peak_magnitude (window hiss) = 1%Z /\
  length (window hiss) = 46 /\
  map (fun audio => Z.of_nat (length audio))
    (asr_calls (trace_of (listen_iteration hiss) fresh))
    = [(46 * 2048)%Z] /\
  published (trace_of (listen_iteration hiss) fresh) = [VStr "ni hao"].
Proof. split_and!; vm_compute; reflexivity. Qed.

(** C2 at a failing input: every sample of the window is 25700, well above
    100; yet no byte exceeds 100, the gate stays closed and the recognizer
    is never called. *)
Theorem loud_window_is_skipped :
  peak_magnitude (window loud) = 25700%Z /\
  length (window loud) = 46 /\
  asr_calls (trace_of (listen_iteration loud) fresh) = [] /\
  result_of (listen_iteration loud) fresh = Ret Continue.
Proof. split_and!; vm_compute; reflexivity. Qed.

(** ** Overflowed reads *)

(** C9: a read that raises [IOError] with code -9981 is a dropped frame.
    The window goes on with the remaining reads from the same frames and
    the same flag, only a warning being logged; and a window in which
    overflow is the only error completes, holding the frames of the other
    reads. *)
Theorem overflow_is_a_dropped_frame (env : listen_env) (h : handle) :
  (forall i n frames hv s args,
     read env i = inl (overflow args) ->
     record_window env h i (S n) frames hv s =
     let '(r, s', t) := record_window env h (S i) n frames hv s in
     (r, s', StreamRead h chunk :: Log Warning MsgOverflow :: t)) /\
  (forall s,
     (forall j, j < chunks_per_window ->
        (exists args, read env j = inl (overflow args)) \/
        (exists b bs, read env j = inr (b :: bs))) ->
     exists t,
       record_window env h 0 chunks_per_window [] false s =
       (Ret (window env, gate env), s, t)).
Proof.
  split.
  - intros i n frames hv s args Hread. cbn [record_window].
    rewrite run_bind, read_chunk_run, Hread. cbn [classify overflow py_eq_int].
    cbn [Z.eqb Pos.eqb]. cbn [fst snd app].
    by destruct (record_window env h (S i) n frames hv s) as [[r s'] t].
  - intros s Hreads.
    destruct (record_window_completes env h chunks_per_window 0 [] false s)
      as (f & v & t & Hrun).
    { intros j e Hj. destruct (Hreads j) as [[args ->] | (b & bs & ->)];
        [lia | done | done]. }
    destruct (record_window_run env h chunks_per_window 0 [] false s)
      as (r & t' & Hrun' & _ & Hr).
    rewrite Hrun in Hrun'. injection Hrun' as <- <-.
    destruct Hr as [-> ->]. by exists t.
Qed.

Lemma overflow_is_a_dropped_frame_witness :
  record_window one_overflow 7 0 3 [] false fresh =
  (let '(r, s', t) := record_window one_overflow 7 1 2 [] false fresh in
   (r, s', StreamRead 7 chunk :: Log Warning MsgOverflow :: t)) /\
  (exists t,
     record_window one_overflow 7 0 chunks_per_window [] false fresh =
     (Ret (window one_overflow, gate one_overflow), fresh, t)).
Proof.
  split.
  - apply (proj1 (overflow_is_a_dropped_frame one_overflow 7)
             0 2 [] false fresh [VStr "Input overflowed"]).
    reflexivity.
  - apply (proj2 (overflow_is_a_dropped_frame one_overflow 7) fresh).
    intros [| j] _; [left | right]; cbn; eauto.
Defined.

(** ** The loop *)

Lemma listen_for_audio_cons env envs s :
  _listen_for_audio (env :: envs) s =
  if _running s then
    match listen_iteration env s with
    | (Ret Continue, s1, t1) =>
        let '(r, s2, t2) := _listen_for_audio envs s1 in (r, s2, t1 ++ t2)
    | (Ret Break, s1, t1) => (Ret Exited, s1, t1)
    | (Raise r, s1, t1) => (Raise r, s1, t1)
    end
  else (Ret Exited, s, []).
Proof.
  cbn [_listen_for_audio]. rewrite run_bind. cbn [get_running].
  destruct (_running s); cbn [negb]; [| reflexivity].
  rewrite run_bind.
  destruct (listen_iteration env s) as [[[[|] | r] s1] t1]; cbn.
  - by destruct (_listen_for_audio envs s1) as [[r s2] t2].
  - by rewrite app_nil_r.
  - reflexivity.
Qed.

(** Without a cancellation the loop is still running after any number of
    cycles, whatever the device and the provider raise. *)
Lemma listen_keeps_looping envs : forall s,
  _running s = true ->
  Forall uncancelled envs ->
  result_of (_listen_for_audio envs) s = Ret Looping.
Proof.
  induction envs as [| env envs IH]; intros s Hr Hu.
  - unfold result_of. cbn [_listen_for_audio]. rewrite run_bind.
    cbn [get_running]. by rewrite Hr.
  - apply Forall_cons in Hu as [(Hi & Hb & Hm) Hu].
    unfold result_of. rewrite listen_for_audio_cons, Hr.
    destruct (listen_iteration_summary env s)
      as (c & s1 & t & -> & Hrs & Hc).
    destruct c as [[|] | [| e]].
    + specialize (IH s1). unfold result_of in IH.
      destruct (_listen_for_audio envs s1) as [[r s2] t2]. cbn.
      apply IH; [congruence | done].
    + destruct Hc as [Hc | [Hc | Hc]]; congruence.
    + congruence.
    + done.
Qed.

(** [stop] lowers [_running] and cancels the task; a loop that tests the
    flag afterwards exits. *)
Lemma stop_ends_loop env envs s :
  _running (state_of (stop env) s) = false /\
  (_recording_task s = true -> In TaskCancel (trace_of (stop env) s)) /\
  result_of (_listen_for_audio envs) (state_of (stop env) s) = Ret Exited.
Proof.
  assert (Hrun : _running (state_of (stop env) s) = false).
  { unfold state_of, stop. unfold_monad. cbn.
    destruct (_recording_task s), (stream s) as [h |]; cbn;
      try destruct (stop_stream env); try destruct (close env); reflexivity. }
  split; [done |]. split.
  - intros Ht. unfold trace_of, stop. unfold_monad. cbn. rewrite Ht.
    destruct (stream s) as [h |]; cbn;
      try destruct (stop_stream env); try destruct (close env); cbn; auto.
  - unfold result_of. destruct envs as [| env' envs].
    + cbn [_listen_for_audio]. rewrite run_bind. cbn [get_running].
      by rewrite Hrun.
    + by rewrite listen_for_audio_cons, Hrun.
Qed.

(** ** Exceptions in a cycle *)

(** C8, as stated, fails: here the capture stream 7 was opened and a read
    raised; the handler calls [stop_stream], which raises too, and the bare
    [except: pass] skips [close]: the stream is left open. *)
Lemma stream_left_open_when_stop_fails :
  listen_iteration unplugged fresh =
  (Ret Continue, with_stream fresh 7,
   [PaOpenInput rate chunk; Log Debug MsgListening; StreamRead 7 chunk;
    Log Error (MsgListenError host_error); StreamStop 7; Sleep 1]) /\
  ~ In (StreamClose 7) (trace_of (listen_iteration unplugged) fresh).
Proof.
  assert (H : listen_iteration unplugged fresh =
    (Ret Continue, with_stream fresh 7,
     [PaOpenInput rate chunk; Log Debug MsgListening; StreamRead 7 chunk;
      Log Error (MsgListenError host_error); StreamStop 7; Sleep 1]))
    by (vm_compute; reflexivity).
  split; [done |]. unfold trace_of. rewrite H. cbn.
  intros [? | [? | [? | [? | [? | [? | []]]]]]]; discriminate.
Qed.

(** C8, amended: the listen loop ends only on cancellation: as long as
    [_running] is set and no cancellation is delivered, it is still looping
    after any number of cycles.  Any [Exception] that escapes the [try]
    block of a cycle is logged; then, if [self.stream] is set, [stop_stream]
    is called on it, followed by [close] unless [stop_stream] itself raised
    (what either call raises is swallowed), then the loop sleeps one second;
    and the loop goes on with the next cycle, unless that sleep is
    cancelled. *)
Theorem listen_loop_survives_exceptions :
  (forall envs s,
     _running s = true ->
     Forall uncancelled envs ->
     result_of (_listen_for_audio envs) s = Ret Looping) /\
  (forall env s e s1 t1,
     listen_cycle env s = (Raise (Exc e), s1, t1) ->
     trace_of (listen_iteration env) s =
       t1 ++ Log Error (MsgListenError e) ::
       match stream s1 with
       | None => []
       | Some h =>
           StreamStop h ::
           match stop_stream env with
           | None => [StreamClose h; Sleep 1]
           | Some _ => [Sleep 1]
           end
       end /\
     state_of (listen_iteration env) s = s1 /\
     (backoff_cancelled env = false ->
      result_of (listen_iteration env) s = Ret Continue)).
Proof.
  split; [apply listen_keeps_looping |].
  intros env s e s1 t1 Hc.
  unfold trace_of, state_of, result_of.
  rewrite listen_iteration_run, Hc. cbn [fst snd].
  split; [reflexivity |]. split; [reflexivity |].
  intros ->. by destruct (stream s1).
Qed.

Lemma listen_loop_survives_exceptions_witness :
  result_of (_listen_for_audio [unplugged; loud; unplugged]) fresh
    = Ret Looping /\
  trace_of (listen_iteration unplugged) fresh =
    [PaOpenInput rate chunk; Log Debug MsgListening; StreamRead 7 chunk] ++
    Log Error (MsgListenError host_error) :: [StreamStop 7; Sleep 1].
Proof.
  split.
  - apply (proj1 listen_loop_survives_exceptions
             [unplugged; loud; unplugged] fresh); [reflexivity |].
    repeat constructor; discriminate.
  - apply (proj2 listen_loop_survives_exceptions unplugged fresh
             host_error (with_stream fresh 7)
             [PaOpenInput rate chunk; Log Debug MsgListening;
              StreamRead 7 chunk]).
    vm_compute. reflexivity.
Defined.

(** ** The delay between cycles *)

(** C7 at a failing input: right after [start], with no input device, each
    cycle fails in [self.p.open]; [self.stream] is still [None], so the
    handler skips the [if] that holds [asyncio.sleep(1)], and the next cycle
    starts at once: three cycles, not one sleep. *)
Theorem open_failure_retries_at_once :
  _listen_for_audio [no_device; no_device; no_device] fresh =
  (Ret Looping, fresh,
   [PaOpenInput rate chunk; Log Error (MsgListenError invalid_device);
    PaOpenInput rate chunk; Log Error (MsgListenError invalid_device);
    PaOpenInput rate chunk; Log Error (MsgListenError invalid_device)]) /\
  sleeps (trace_of (_listen_for_audio [no_device; no_device; no_device]) fresh)
    = [].
Proof. split; vm_compute; reflexivity. Qed.

(** This holds for any number of cycles: while the device has never been
    opened, failed opens follow each other without any sleep. *)
Lemma busy_retry_while_never_opened envs : forall s,
  _running s = true ->
  stream s = None ->
  Forall (fun env => exists e, open_input env = inl e) envs ->
  _listen_for_audio envs s =
  (Ret Looping, s,
   flat_map (fun env =>
               match open_input env with
               | inl e => [PaOpenInput rate chunk;
                           Log Error (MsgListenError e)]
               | inr _ => []
               end) envs).
Proof.
  induction envs as [| env envs IH]; intros s Hr Hs Hall.
  - cbn [_listen_for_audio]. rewrite run_bind. cbn [get_running].
    by rewrite Hr.
  - apply Forall_cons in Hall as [[e He] Hall].
    rewrite listen_for_audio_cons, Hr, listen_iteration_run.
    pose proof (listen_cycle_run env s) as Hc. rewrite He in Hc.
    rewrite Hc, Hs. cbn [recovery]. rewrite (IH s Hr Hs Hall).
    cbn [flat_map]. by rewrite He.
Qed.

(** In every other pass that lets the loop go on, it has slept: half a
    second after a cycle that returned, one second after a failure. *)
Lemma iteration_sleeps_once_opened env s s1 t :
  listen_iteration env s = (Ret Continue, s1, t) ->
  stream s <> None \/ (exists h, open_input env = inr h) ->
  sleeps t <> [].
Proof.
  intros Hrun Hopened.
  destruct (listen_iteration_summary env s) as (c & s1' & t' & Hrun' & _ & Hc).
  rewrite Hrun in Hrun'. injection Hrun' as <- <- <-.
  destruct Hc as [Hc | (Hs & e & He)]; [done |].
  destruct Hopened as [Hn | [h Hh]]; congruence.
Qed.

(** * Further properties *)

(** ** Projections of composite traces *)

Lemma omap_logs {A} (f : event -> option A) lg :
  (forall lv m, f (Log lv m) = None) ->
  Forall (fun ev => is_log ev = true) lg ->
  omap f lg = [].
Proof.
  intros Hf. induction 1 as [| ev lg Hev _ IH]; [done |].
  destruct ev; try discriminate. cbn. by rewrite Hf.
Qed.

Lemma omap_capture {A} (f : event -> option A) wt :
  (forall h n, f (StreamRead h n) = None) ->
  (forall lv m, f (Log lv m) = None) ->
  Forall (fun ev => is_capture_event ev = true) wt ->
  omap f wt = [].
Proof.
  intros Hr Hl. induction 1 as [| ev wt Hev _ IH]; [done |].
  destruct ev; try discriminate; cbn; by rewrite ?Hr, ?Hl.
Qed.

Lemma capture_trace_events env h s :
  Forall (fun ev => is_capture_event ev = true) (capture_trace env h s).
Proof.
  unfold capture_trace, trace_of.
  by destruct (record_window_run env h chunks_per_window 0 [] false
                 (with_stream s h)) as (r & t & -> & Ht & _).
Qed.

(** The part after the capture, laid out. *)
Lemma process_window_shape env frames hv s :
  exists lg,
    Forall (fun ev => is_log ev = true) lg /\
    process_window env frames hv s =
    let idle := if idle_cancelled env then Raise Cancelled else Ret tt in
    if hv then
      let tr := transcript (asr env) in
      let pre := Log Info (MsgRecorded (length (concat frames)))
                 :: Asr (concat frames) "pcm" 16000 1537 :: lg in
      if truthy tr then
        let pub := [Log Info (MsgRecognized tr);
                    HandleMessage "voice_user" "voice_chat" tr] in
        match _handle_message env with
        | None => (idle, s, pre ++ pub ++ [Sleep (1 # 2)])
        | Some r => (Raise r, s, pre ++ pub)
        end
      else (idle, s, pre ++ [Log Warning MsgNoSpeech; Sleep (1 # 2)])
    else (idle, s, [Log Debug MsgNoVoice; Sleep (1 # 2)]).
Proof.
  unfold process_window. destruct hv.
  - destruct (recognize_speech_run (asr env) (concat frames) s)
      as (lg & Hrun & Hlg).
    exists lg. split; [done |].
    rewrite run_bind, run_bind. cbn [log emit]. rewrite run_bind, Hrun.
    cbn zeta. destruct (truthy (transcript (asr env))).
    + unfold_monad.
      destruct (_handle_message env) as [r |], (idle_cancelled env);
        cbn; rewrite ?app_nil_r, <- ?app_assoc; reflexivity.
    + unfold_monad. destruct (idle_cancelled env); cbn;
        rewrite ?app_nil_r, <- ?app_assoc; reflexivity.
  - exists []. split; [constructor |]. unfold_monad.
    by destruct (idle_cancelled env).
Qed.

(** A window that is recorded to the end had no read that failed for good,
    made exactly [n] reads of [chunk] frames on its stream, and kept at most
    [n] chunks. *)
Lemma record_window_ret env h n : forall i frames hv s fv s' t,
  record_window env h i n frames hv s = (Ret fv, s', t) ->
  (forall j e, i <= j < i + n -> classify (read env j) <> Failed e) /\
  reads t = replicate n (h, chunk) /\
  length (captured env i n) <= n.
Proof.
  induction n as [| n IH]; intros i frames hv s fv s' t.
  - cbn. intros [= <- <- <-]. split; [intros; lia | done].
  - cbn [record_window captured]. rewrite run_bind, read_chunk_run.
    destruct (classify (read env i)) as [data | | e] eqn:E; [| | done].
    + destruct (record_window env h (S i) n (frames ++ [data])
                  (hv || (100 <? chunk_peak data)%N) s)
        as [[[fv' |] s1] t1] eqn:Er; [| done].
      intros [= <- <- <-].
      destruct (IH _ _ _ _ _ _ _ Er) as (Hok & Hreads & Hlen).
      split; [| split].
      * intros j e [Hj1 Hj2].
        destruct (decide (j = i)) as [-> | Hne]; [by rewrite E |].
        apply Hok. lia.
      * cbn. unfold reads in Hreads. by rewrite Hreads.
      * cbn. lia.
    + destruct (record_window env h (S i) n frames hv s)
        as [[[fv' |] s1] t1] eqn:Er; [| done].
      intros [= <- <- <-].
      destruct (IH _ _ _ _ _ _ _ Er) as (Hok & Hreads & Hlen).
      split; [| split].
      * intros j e [Hj1 Hj2].
        destruct (decide (j = i)) as [-> | Hne]; [by rewrite E |].
        apply Hok. lia.
      * cbn. unfold reads in Hreads. by rewrite Hreads.
      * lia.
Qed.

(** A pass of the [while] body, laid out: the device does not open; or a
    read of the window fails for good; or the window is processed. *)
Lemma listen_iteration_shape env s :
  match open_input env with
  | inl e =>
      listen_iteration env s =
      (after_failure env (stream s), s,
       PaOpenInput rate chunk :: Log Error (MsgListenError e)
         :: recovery env (stream s))
  | inr h =>
      (exists e,
         ~ window_completes env /\
         listen_iteration env s =
         (after_failure env (Some h), with_stream s h,
          (PaOpenInput rate chunk :: Log Debug MsgListening
             :: capture_trace env h s)
          ++ Log Error (MsgListenError e) :: recovery env (Some h))) \/
      (exists lg,
         Forall (fun ev => is_log ev = true) lg /\
         window_completes env /\
         reads (capture_trace env h s) =
           replicate chunks_per_window (h, chunk) /\
         listen_iteration env s = processed env s h lg)
  end.
Proof.
  rewrite listen_iteration_run. unfold listen_cycle.
  destruct (open_input env) as [e | h] eqn:Ho; [reflexivity |].
  rewrite run_bind. cbn [emit]. rewrite run_bind. cbn [answer mret M_ret].
  rewrite run_bind. cbn [set_stream]. rewrite run_bind. cbn [log emit].
  rewrite run_bind. fold (with_stream s h).
  unfold capture_trace, trace_of.
  destruct (record_window_run env h chunks_per_window 0 [] false
              (with_stream s h)) as (r & wt & Hrun & Hwt & Hr).
  rewrite Hrun. cbn [snd].
  destruct r as [[frames hv] | r].
  - right. destruct (record_window_ret _ _ _ _ _ _ _ _ _ _ Hrun)
      as (Hok & Hreads & _).
    destruct Hr as [-> ->]. cbn [app orb].
    fold (window env) (gate env).
    destruct (process_window_shape env (window env) (gate env)
                (with_stream s h)) as (lg & Hlg & Hp).
    exists lg. split; [done |]. split; [intros j e Hj; apply Hok; lia |].
    split; [done |]. rewrite Hp. unfold processed.
    unfold capture_trace, trace_of. rewrite Hrun. cbn [snd].
    cbn zeta.
    destruct (gate env).
    + destruct (truthy (transcript (asr env))).
      * destruct (_handle_message env) as [[| e] |], (idle_cancelled env);
          cbn [app stream with_stream after_failure fst snd];
          repeat (rewrite <- ?app_assoc, ?app_nil_r; cbn [app]);
          reflexivity.
      * destruct (idle_cancelled env); cbn [app];
          repeat (rewrite <- ?app_assoc, ?app_nil_r; cbn [app]);
          reflexivity.
    + destruct (idle_cancelled env); cbn [app]; reflexivity.
  - left. destruct Hr as [e ->]. exists e. split.
    + intros Hc.
      destruct (record_window_completes env h chunks_per_window 0 [] false
                  (with_stream s h)) as (f & v & t & Hrun').
      { intros j e' Hj. apply Hc. lia. }
      congruence.
    + cbn [stream with_stream after_failure]. reflexivity.
Qed.

(** ** Synthesis *)

(** X1: whatever the configuration, the language of a provider call made by
    [synthesize_speech] is "en" when the configured language is "en" and
    "zh" in every other case (configured "zh", any other value, or no
    language configured). *)
Theorem synthesis_language_normalised (round64 : Q -> Q)
    (cfg : voice_config) (ans : exn + synth_result) (text : string)
    (s : channel) :
  Forall (fun c => c.1.1.2 =
                   if bool_decide (language cfg = Some "en") then "en"
                   else "zh")
    (synthesis_calls (trace_of (synthesize_speech round64 cfg ans text) s)).
Proof.
  rewrite synthesize_speech_calls.
  destruct (tts_params round64 cfg) as [e | p]; constructor; [| constructor].
  cbn [fst snd]. unfold tts_language.
  destruct (language cfg) as [l |]; cbn [default].
  - destruct (decide (l = "en")) as [-> | Hne].
    + by rewrite !bool_decide_eq_true_2 by set_solver.
    + rewrite (bool_decide_eq_false_2 (Some l = Some "en")) by congruence.
      case_bool_decide as Hin; [| done].
      apply list_elem_of_In in Hin.
      destruct Hin as [H | [H | []]]; unfold id in *; subst l;
        [reflexivity | by destruct Hne].
  - rewrite (bool_decide_eq_false_2 (None = Some "en")) by done.
    by destruct (bool_decide _).
Qed.

(** X2: when the configured speed is a NaN or an infinite float, [int]
    raises while the parameters are built: [synthesize_speech] logs the
    error and returns [None] without calling the provider, whatever the
    provider would have answered. *)
Theorem synthesis_needs_finite_speed (round64 : Q -> Q)
    (cfg : voice_config) (ans : exn + synth_result) (text : string)
    (s : channel) :
  (tts_speed cfg = Some NaN ->
   synthesize_speech round64 cfg ans text s =
   (Ret None, s, [Log Error (MsgTtsFailed ValueError)])) /\
  (tts_speed cfg = Some Infinity ->
   synthesize_speech round64 cfg ans text s =
   (Ret None, s, [Log Error (MsgTtsFailed OverflowError)])).
Proof.
  split; intros Hspeed; unfold synthesize_speech, tts_params;
    rewrite Hspeed; reflexivity.
Qed.

Lemma synthesis_needs_finite_speed_witness :
  synthesize_speech (fun q => q) cfg_nan_speed (inr (Audio [x01])) "hello"
    fresh = (Ret None, fresh, [Log Error (MsgTtsFailed ValueError)]) /\
  synthesize_speech (fun q => q) cfg_inf_speed (inr (Audio [x01])) "hello"
    fresh = (Ret None, fresh, [Log Error (MsgTtsFailed OverflowError)]).
Proof.
  split.
  - apply (proj1 (synthesis_needs_finite_speed (fun q => q) cfg_nan_speed
                    (inr (Audio [x01])) "hello" fresh)).
    reflexivity.
  - apply (proj2 (synthesis_needs_finite_speed (fun q => q) cfg_inf_speed
                    (inr (Audio [x01])) "hello" fresh)).
    reflexivity.
Defined.

(** X3: [synthesize_speech] never raises and never changes the channel; it
    returns audio exactly when the parameters could be built and the
    provider answered with audio, and then it returns that audio, empty or
    not. *)
Theorem synthesize_speech_returns (round64 : Q -> Q) (cfg : voice_config)
    (ans : exn + synth_result) (text : string) (s : channel) :
  exists r,
    result_of (synthesize_speech round64 cfg ans text) s = Ret r /\
    state_of (synthesize_speech round64 cfg ans text) s = s /\
    forall data,
      r = Some data <->
      (exists p, tts_params round64 cfg = inr p) /\ ans = inr (Audio data).
Proof.
  unfold result_of, state_of.
  destruct (synthesize_speech_run round64 cfg ans text s) as [t ->].
  eexists. split; [reflexivity |]. split; [reflexivity |].
  intros data. destruct (tts_params round64 cfg) as [e | p].
  - split; [done |]. by intros [[p ?] _].
  - destruct ans as [e | [data' | d]].
    + split; [done |]. by intros [_ ?].
    + split.
      * intros [= ->]. eauto.
      * intros [_ [= ->]]. done.
    + split; [done |]. by intros [_ ?].
Qed.

(** X23: when the configured speed is finite but its product by 5
    overflows to an infinity, [int] raises [OverflowError] while the
    parameters are built: [synthesize_speech] logs the error and returns
    [None] without calling the provider, and [send] returns [False] without
    any playback call. *)
Theorem speed_overflow_skips_provider (round64 : Q -> Q)
    (cfg : voice_config) (env : send_env) (msg : pymsg) (text : string)
    (s : channel) (q : Q) :
  tts_speed cfg = Some (Finite q) ->
  overflows (round64 (q * 5)%Q) = true ->
  synthesize_speech round64 cfg (synthesis env) text s =
    (Ret None, s, [Log Error (MsgTtsFailed OverflowError)]) /\
  send round64 cfg env msg s =
    (Ret false, s,
     [Log Error (MsgTtsFailed OverflowError); Log Error MsgSynthFailed]).
Proof.
  intros Hspeed Hover.
  assert (Hsyn : forall text,
            synthesize_speech round64 cfg (synthesis env) text s =
            (Ret None, s, [Log Error (MsgTtsFailed OverflowError)])).
  { intros text'. unfold synthesize_speech, tts_params.
    rewrite Hspeed. cbn [default from_option id times5]. cbv zeta.
    rewrite Hover. reflexivity. }
  split; [apply Hsyn |]. by rewrite send_run, Hsyn.
Qed.

Lemma speed_overflow_skips_provider_witness :
  synthesize_speech (fun q => q) cfg_huge_speed (synthesis working_speaker)
    "hello" fresh =
    (Ret None, fresh, [Log Error (MsgTtsFailed OverflowError)]) /\
  send (fun q => q) cfg_huge_speed working_speaker (MsgText "hello") fresh =
    (Ret false, fresh,
     [Log Error (MsgTtsFailed OverflowError); Log Error MsgSynthFailed]).
Proof.
  apply (speed_overflow_skips_provider (fun q => q) cfg_huge_speed
           working_speaker (MsgText "hello") "hello" fresh
           ((4 * 10 ^ 307)%Z # 1)).
  - reflexivity.
  - vm_compute. reflexivity.
Defined.

Lemma clamp_saturate (hi x : Z) : (0 <= hi)%Z -> clamp hi x = saturate hi x.
Proof.
  intros Hhi. unfold clamp, saturate.
  destruct (Z.ltb_spec x 0), (Z.ltb_spec hi x); lia.
Qed.

(** X4: the parameter dict has exactly the four keys vol, spd, pit and per.
    A configured volume or pitch inside its range is passed unchanged, one
    below 0 becomes 0 and one above the bound becomes the bound (15 and 9);
    unset they are 5.  The speed parameter is the truncated, rounded product
    of the speed by 5, treated the same way with bound 9. *)
Theorem tts_params_values (round64 : Q -> Q) (cfg : voice_config)
    (p : gmap string Z) :
  tts_params round64 cfg = inr p ->
  dom p = {["vol"]} ∪ {["spd"]} ∪ {["pit"]} ∪ ({["per"]} : gset string) /\
  p !! "vol" = Some (saturate 15 (default 5%Z (vol cfg))) /\
  p !! "pit" = Some (saturate 9 (default 5%Z (pit cfg))) /\
  (forall q, default (Finite (4 # 5)) (tts_speed cfg) = Finite q ->
             p !! "spd" = Some (saturate 9 (py_int (round64 (q * 5)%Q)))).
Proof.
  unfold tts_params.
  destruct (default (Finite (4 # 5)) (tts_speed cfg)) as [q | |] eqn:Hq;
    cbn [times5 int_of_float]; [| discriminate | discriminate].
  cbv zeta. destruct (overflows (round64 (q * 5)%Q)); [discriminate |].
  cbn [int_of_float].
  intros [= <-]. split; [| split; [| split]].
  - rewrite !dom_insert_L, dom_empty_L. set_solver.
  - rewrite <- clamp_saturate by lia. reflexivity.
  - rewrite <- clamp_saturate by lia. reflexivity.
  - intros q' [= <-]. rewrite <- clamp_saturate by lia. reflexivity.
Qed.

Lemma tts_params_values_witness :
  exists p,
    tts_params (fun q => q) cfg_loud_voice = inr p /\
    p !! "vol" = Some 15%Z /\ p !! "pit" = Some 0%Z /\ p !! "spd" = Some 9%Z.
Proof.
  destruct (tts_params (fun q => q) cfg_loud_voice) as [e | p] eqn:E;
    [vm_compute in E; discriminate |].
  exists p. split; [reflexivity |].
  destruct (tts_params_values (fun q => q) cfg_loud_voice p E)
    as (_ & Hvol & Hpit & Hspd).
  split; [exact Hvol |]. split; [exact Hpit |].
  exact (Hspd 3%Q eq_refl).
Defined.

(** ** Playback and [send] *)

(** X5: [_play_audio] never raises and never changes the channel.  It opens
    one output stream at 16 kHz; it writes the audio, once and unchanged,
    exactly when that stream opens; and it closes the stream exactly when the
    open, the write and [stop_stream] all succeed: after a failed write or a
    failed [stop_stream] the stream it opened is not closed. *)
Theorem play_audio_device_calls (env : send_env) (data : bytes)
    (s : channel) :
  result_of (_play_audio env data) s = Ret tt /\
  state_of (_play_audio env data) s = s /\
  output_opens (trace_of (_play_audio env data) s) = [16000%Z] /\
  writes (trace_of (_play_audio env data) s) =
    match open_output env with
    | inr h => [(h, data)]
    | inl _ => []
    end /\
  closes (trace_of (_play_audio env data) s) =
    match open_output env, write env, play_stop env with
    | inr h, None, None => [h]
    | _, _, _ => []
    end.
Proof.
  unfold result_of, state_of, trace_of, _play_audio. unfold_monad.
  destruct (open_output env) as [e | h]; [done |].
  destruct (write env); [done |].
  destruct (play_stop env); [done |].
  by destruct (play_close env).
Qed.

Lemma play_audio_opens_once env data s :
  output_opens (trace_of (_play_audio env data) s) = [16000%Z].
Proof.
  unfold trace_of, _play_audio. unfold_monad.
  destruct (open_output env) as [e | h]; [done |].
  destruct (write env); [done |].
  destruct (play_stop env); [done |].
  by destruct (play_close env).
Qed.

Lemma omap_no_playback {A} (f : event -> option A) t :
  (forall ev, is_playback_call ev = false -> f ev = None) ->
  Forall (fun ev => is_playback_call ev = false) t ->
  omap f t = [].
Proof.
  intros Hf. induction 1 as [| ev t Hev _ IH]; [done |].
  cbn. by rewrite (Hf ev Hev).
Qed.

(** X6: [send] attempts playback exactly when it returns [True]: either it
    returns [True] and has opened one output stream at 16 kHz, or it returns
    [False] and has made no playback call at all (no open, write, stop or
    close), whatever made the synthesis fail. *)
Theorem send_plays_iff_true (round64 : Q -> Q) (cfg : voice_config)
    (env : send_env) (msg : pymsg) (s : channel) :
  (result_of (send round64 cfg env msg) s = Ret true /\
   output_opens (trace_of (send round64 cfg env msg) s) = [16000%Z]) \/
  (result_of (send round64 cfg env msg) s = Ret false /\
   Forall (fun ev => is_playback_call ev = false)
     (trace_of (send round64 cfg env msg) s)).
Proof.
  pose proof (synthesize_speech_no_device round64 cfg (synthesis env)
                (message_text msg) s) as Hdev.
  unfold result_of, trace_of in *. rewrite send_run.
  destruct (synthesize_speech_run round64 cfg (synthesis env)
              (message_text msg) s) as [t Hrun].
  rewrite Hrun in *. cbn [fst snd] in *.
  destruct (match tts_params round64 cfg with inl _ => _ | inr _ => _ end)
    as [[| b bs] |].
  - right. split; [done |]. apply Forall_app. split; [done |].
    by repeat constructor.
  - left. split; [done |]. cbn [fst snd]. unfold output_opens.
    rewrite omap_app, (omap_no_playback _ t) by (done || by intros []).
    exact (play_audio_opens_once env (b :: bs) s).
  - right. split; [done |]. apply Forall_app. split; [done |].
    by repeat constructor.
Qed.

(** X7: [send] leaves the channel as it found it, calls the provider at
    most once and writes to the device at most once; it never reads from the
    microphone, never calls the recognizer, never publishes to the bus and
    never sleeps. *)
Theorem send_stays_on_its_path (round64 : Q -> Q) (cfg : voice_config)
    (env : send_env) (msg : pymsg) (s : channel) :
  state_of (send round64 cfg env msg) s = s /\
  length (synthesis_calls (trace_of (send round64 cfg env msg) s)) <= 1 /\
  length (writes (trace_of (send round64 cfg env msg) s)) <= 1 /\
  reads (trace_of (send round64 cfg env msg) s) = [] /\
  asr_requests (trace_of (send round64 cfg env msg) s) = [] /\
  handle_calls (trace_of (send round64 cfg env msg) s) = [] /\
  sleeps (trace_of (send round64 cfg env msg) s) = [].
Proof.
  split; [| split].
  - unfold state_of. rewrite send_run.
    destruct (synthesize_speech_run round64 cfg (synthesis env)
                (message_text msg) s) as [t ->].
    by destruct (match tts_params round64 cfg with inl _ => _ | inr _ => _ end)
      as [[| b bs] |].
  - rewrite send_synthesis_calls, synthesize_speech_calls.
    destruct (tts_params round64 cfg); cbn; lia.
  - unfold trace_of, send, synthesize_speech, _play_audio. unfold_monad.
    destruct (tts_params round64 cfg) as [e | p]; [cbn; repeat split; lia |].
    destruct (synthesis env) as [e | [[| b bs] | d]];
      try (cbn; repeat split; lia).
    destruct (open_output env) as [e | h]; [cbn; repeat split; lia |].
    destruct (write env); [cbn; repeat split; lia |].
    destruct (play_stop env); [cbn; repeat split; lia |].
    destruct (play_close env); cbn; repeat split; lia.
Qed.

(** ** Life cycle *)

(** X8: [stop] never raises, whatever closing the stream raises.  It clears
    [_running], keeps [self.stream] and the task as they are, cancels the
    task exactly when there is one, calls [stop_stream] exactly when
    [self.stream] is set and [close] only if that call returned, and in
    every case ends with [p.terminate()], called once. *)
Theorem stop_always_terminates (env : listen_env) (s : channel) :
  exists t0,
    stop env s =
    (Ret tt, Channel false (stream s) (_recording_task s),
     t0 ++ [PaTerminate; Log Info MsgStopped]) /\
    terminates t0 = [] /\
    task_cancels t0 = (if _recording_task s then [tt] else []) /\
    stops t0 = match stream s with Some h => [h] | None => [] end /\
    closes t0 =
      match stream s, stop_stream env with
      | Some h, None => [h]
      | _, _ => []
      end.
Proof.
  unfold stop. unfold_monad. cbn.
  destruct (_recording_task s), (stream s) as [h |]; cbn;
    try destruct (stop_stream env); cbn; try destruct (close env); cbn;
    match goal with
    | |- exists t0, (_, _, ?t) = _ /\ _ =>
        exists (take (length t - 2) t)
    end; cbn; done.
Qed.

Lemma stop_state env s :
  state_of (stop env) s = Channel false (stream s) (_recording_task s).
Proof.
  unfold state_of, stop. unfold_monad. cbn.
  destruct (_recording_task s), (stream s) as [h |]; cbn;
    try destruct (stop_stream env); cbn; try destruct (close env); done.
Qed.

Lemma listen_stopped envs s :
  _running s = false -> _listen_for_audio envs s = (Ret Exited, s, []).
Proof.
  intros Hr. destruct envs as [| env envs].
  - cbn [_listen_for_audio]. rewrite run_bind. cbn [get_running].
    by rewrite Hr.
  - by rewrite listen_for_audio_cons, Hr.
Qed.

(** X9: once [stop] has run, a listen loop that tests [_running] exits at
    once, whatever the state [stop] was called in and whatever closing the
    stream raised: it opens no stream, reads nothing, calls no provider and
    does not sleep. *)
Theorem stopped_loop_does_nothing (env : listen_env)
    (envs : list listen_env) (s : channel) :
  _listen_for_audio envs (state_of (stop env) s) =
    (Ret Exited, Channel false (stream s) (_recording_task s), []).
Proof.
  rewrite stop_state. by apply listen_stopped.
Qed.

(** ** Passes of the listen loop *)

Ltac unfold_projections :=
  unfold asr_calls, asr_requests, published, handle_calls, sleeps, reads,
    stops, closes, input_opens, output_opens, terminates, task_cancels in *.

(** Pushes a projection through a laid-out trace; the capture segment and
    the log segment vanish wherever the projection ignores reads and log
    lines. *)
Ltac project :=
  repeat match goal with
  | |- context [omap ?f (?a ++ ?b)] => rewrite (omap_app f a b)
  | Hwt : Forall (fun ev => is_capture_event ev = true) ?wt
    |- context [omap ?f ?wt] =>
      rewrite (omap_capture f wt (fun _ _ => eq_refl) (fun _ _ => eq_refl)
                 Hwt)
  | Hlg : Forall (fun ev => is_log ev = true) ?lg
    |- context [omap ?f ?lg] =>
      rewrite (omap_logs f lg (fun _ _ => eq_refl) Hlg)
  | |- _ => progress cbn [omap list_omap app fst snd]
  end.

(** What [recovery] contributes to the projections. *)
Lemma recovery_calls env st :
  asr_requests (recovery env st) = [] /\
  handle_calls (recovery env st) = [] /\
  reads (recovery env st) = [] /\
  input_opens (recovery env st) = [] /\
  stops (recovery env st) = match st with Some h => [h] | None => [] end /\
  closes (recovery env st) =
    match st, stop_stream env with
    | Some h, None => [h]
    | _, _ => []
    end /\
  sleeps (recovery env st) = match st with Some _ => [1%Q] | None => [] end.
Proof.
  destruct st as [h |]; [| done]. unfold recovery.
  by destruct (stop_stream env).
Qed.

(** X10: when no byte of the chunks kept in a window exceeds 100, the pass
    does not call the recognizer and publishes nothing, whatever else
    happens in it (failing device, failing reads, cancellation). *)
Theorem no_byte_above_threshold_no_call (env : listen_env) (s : channel) :
  (forall b, In b (concat (window env)) -> (Byte.to_N b <= 100)%N) ->
  asr_requests (trace_of (listen_iteration env) s) = [] /\
  handle_calls (trace_of (listen_iteration env) s) = [].
Proof.
  intros Hbytes. assert (Hg : gate env = false).
  { unfold gate. apply N.ltb_ge.
    destruct (N.le_gt_cases (peak_byte (window env)) 100) as [| Hgt]; [done |].
    apply peak_byte_above in Hgt as (b & Hb & Hlt).
    specialize (Hbytes b Hb). lia. }
  pose proof (listen_iteration_shape env s) as Hshape.
  unfold trace_of.
  destruct (open_input env) as [e | h].
  - rewrite Hshape. cbn [snd].
    destruct (recovery_calls env (stream s)) as (Ha & Hp & _).
    unfold_projections. cbn [omap list_omap]. by rewrite Ha, Hp.
  - pose proof (capture_trace_events env h s) as Hwt.
    destruct Hshape as [(e & _ & ->) | (lg & Hlg & _ & _ & ->)].
    + destruct (recovery_calls env (Some h)) as (Ha & Hp & _).
      unfold_projections. project. by rewrite Ha, Hp.
    + unfold processed. rewrite Hg. cbn zeta.
      destruct (idle_cancelled env); unfold_projections; by project.
Qed.

Lemma no_byte_above_threshold_no_call_witness :
  asr_requests (trace_of (listen_iteration quiet_room) fresh) = [] /\
  handle_calls (trace_of (listen_iteration quiet_room) fresh) = [].
Proof.
  apply (no_byte_above_threshold_no_call quiet_room fresh).
  assert (Hall : forallb (fun b => (Byte.to_N b <=? 100)%N)
                   (concat (window quiet_room)) = true)
    by (vm_compute; reflexivity).
  intros b Hb. rewrite forallb_forall in Hall.
  apply N.leb_le. by apply Hall.
Defined.

(** X11: when the device opens, the window is recorded to the end and one
    of its kept bytes exceeds 100, the pass makes exactly one recognizer
    request: the concatenation of the kept chunks in reading order, format
    "pcm", rate 16000, [dev_pid] 1537. *)
Theorem byte_above_threshold_one_request (env : listen_env) (s : channel)
    (h : handle) (b : byte) :
  open_input env = inr h ->
  window_completes env ->
  In b (concat (window env)) ->
  (100 < Byte.to_N b)%N ->
  asr_requests (trace_of (listen_iteration env) s) =
    [(concat (window env), "pcm", 16000%Z, 1537%Z)].
Proof.
  intros Hopen Hcomp Hb Hlt. assert (Hg : gate env = true).
  { unfold gate. apply N.ltb_lt. apply peak_byte_above. eauto. }
  pose proof (listen_iteration_shape env s) as Hshape.
  rewrite Hopen in Hshape. unfold trace_of.
  pose proof (capture_trace_events env h s) as Hwt.
  destruct Hshape as [(e & Hn & _) | (lg & Hlg & _ & _ & ->)]; [done |].
  unfold processed. rewrite Hg. cbn zeta.
  destruct (recovery_calls env (Some h)) as (Ha & _).
  destruct (truthy (transcript (asr env)));
    [destruct (_handle_message env) as [[| e] |] |];
    destruct (idle_cancelled env); unfold_projections; project;
    rewrite ?Ha; reflexivity.
Qed.

Lemma byte_above_threshold_one_request_witness :
  asr_requests (trace_of (listen_iteration speech) fresh) =
    [(concat (window speech), "pcm", 16000%Z, 1537%Z)].
Proof.
  apply (byte_above_threshold_one_request speech fresh 7 x7f).
  - reflexivity.
  - intros [| j] e _; discriminate.
  - right. left. reflexivity.
  - reflexivity.
Defined.

(** X12: a pass publishes at most one inbound message, and when it does,
    the sender is "voice_user", the chat is "voice_chat" and the content is
    what [recognize_speech] returned, which is then truthy (not [None], not
    the empty string), on a window whose gate was open. *)
Theorem publication_is_the_transcript (env : listen_env) (s : channel) :
  handle_calls (trace_of (listen_iteration env) s) = [] \/
  (handle_calls (trace_of (listen_iteration env) s) =
     [("voice_user", "voice_chat", transcript (asr env))] /\
   truthy (transcript (asr env)) = true /\
   gate env = true /\
   exists h, open_input env = inr h).
Proof.
  pose proof (listen_iteration_shape env s) as Hshape.
  unfold trace_of.
  destruct (open_input env) as [e | h].
  - left. rewrite Hshape. cbn [snd].
    destruct (recovery_calls env (stream s)) as (_ & Hp & _).
    unfold_projections. cbn [omap list_omap]. by rewrite Hp.
  - pose proof (capture_trace_events env h s) as Hwt.
    destruct (recovery_calls env (Some h)) as (_ & Hp & _).
    destruct Hshape as [(e & _ & ->) | (lg & Hlg & _ & _ & ->)].
    + left. unfold_projections. project. by rewrite Hp.
    + unfold processed. cbn zeta.
      destruct (gate env);
        [| left; destruct (idle_cancelled env); unfold_projections;
           by project].
      destruct (truthy (transcript (asr env)));
        [| left; destruct (idle_cancelled env); unfold_projections;
           by project].
      right. split; [| by eauto].
      destruct (_handle_message env) as [[| e] |];
        destruct (idle_cancelled env); unfold_projections; project;
        rewrite ?Hp; reflexivity.
Qed.

(** X13: when the device opens, the window is recorded to the end, one of
    its kept bytes exceeds 100 and the recognizer's answer is truthy, the
    pass publishes it once, even if [_handle_message] then raises or the
    task is cancelled. *)
Theorem recognized_speech_is_published (env : listen_env) (s : channel)
    (h : handle) (b : byte) :
  open_input env = inr h ->
  window_completes env ->
  In b (concat (window env)) ->
  (100 < Byte.to_N b)%N ->
  truthy (transcript (asr env)) = true ->
  handle_calls (trace_of (listen_iteration env) s) =
    [("voice_user", "voice_chat", transcript (asr env))].
Proof.
  intros Hopen Hcomp Hb Hlt Htruthy. assert (Hg : gate env = true).
  { unfold gate. apply N.ltb_lt. apply peak_byte_above. eauto. }
  pose proof (listen_iteration_shape env s) as Hshape.
  rewrite Hopen in Hshape. unfold trace_of.
  pose proof (capture_trace_events env h s) as Hwt.
  destruct Hshape as [(e & Hn & _) | (lg & Hlg & _ & _ & ->)]; [done |].
  unfold processed. rewrite Hg, Htruthy. cbn zeta.
  destruct (recovery_calls env (Some h)) as (_ & Hp & _).
  destruct (_handle_message env) as [[| e] |];
    destruct (idle_cancelled env); unfold_projections; project;
    rewrite ?Hp; reflexivity.
Qed.

Lemma recognized_speech_is_published_witness :
  handle_calls (trace_of (listen_iteration speech) fresh) =
    [("voice_user", "voice_chat", VStr "ni hao")].
Proof.
  apply (recognized_speech_is_published speech fresh 7 x7f).
  - reflexivity.
  - intros [| j] e _; discriminate.
  - right. left. reflexivity.
  - reflexivity.
  - reflexivity.
Defined.

(** X14: a read that fails for good (an [IOError] whose code is not -9981
    or that carries no argument, any other exception, or an empty chunk, on
    which [max] raises [ValueError]) discards the whole window, loud chunks
    read before it included: no recognizer request, nothing published; the
    handler stops the stream the pass opened and [self.stream] keeps it. *)
Theorem failed_read_discards_window (env : listen_env) (s : channel)
    (h : handle) (j : nat) (e : exn) :
  open_input env = inr h ->
  j < chunks_per_window ->
  classify (read env j) = Failed e ->
  asr_requests (trace_of (listen_iteration env) s) = [] /\
  handle_calls (trace_of (listen_iteration env) s) = [] /\
  stops (trace_of (listen_iteration env) s) = [h] /\
  state_of (listen_iteration env) s = with_stream s h.
Proof.
  intros Hopen Hj Hfail.
  pose proof (listen_iteration_shape env s) as Hshape.
  rewrite Hopen in Hshape. unfold trace_of, state_of.
  pose proof (capture_trace_events env h s) as Hwt.
  destruct Hshape as [(e' & _ & ->) | (lg & _ & Hcomp & _)];
    [| by destruct (Hcomp j e Hj)].
  destruct (recovery_calls env (Some h)) as (Ha & Hp & _ & _ & Hs & _).
  cbn [fst snd]. unfold_projections. project. by rewrite Ha, Hp, Hs.
Qed.

Lemma failed_read_discards_window_witness :
  asr_requests (trace_of (listen_iteration empty_chunk) fresh) = [] /\
  handle_calls (trace_of (listen_iteration empty_chunk) fresh) = [] /\
  stops (trace_of (listen_iteration empty_chunk) fresh) = [7] /\
  state_of (listen_iteration empty_chunk) fresh = with_stream fresh 7.
Proof.
  apply (failed_read_discards_window empty_chunk fresh 7 2 ValueError).
  - reflexivity.
  - vm_compute. lia.
  - reflexivity.
Defined.

(** X15: a pass whose [try] block completes never stops or closes the
    capture stream: it opened a stream, [self.stream] holds it when the pass
    ends, and the loop goes on, so the next pass opens another stream over
    it. *)
Theorem completed_cycle_keeps_stream_open (env : listen_env) (s s1 : channel)
    (t : list event) :
  listen_cycle env s = (Ret tt, s1, t) ->
  listen_iteration env s = (Ret Continue, s1, t) /\
  (exists h, open_input env = inr h /\ s1 = with_stream s h) /\
  input_opens t = [(16000%Z, 1024%Z)] /\
  stops t = [] /\ closes t = [].
Proof.
  intros Hcycle. split; [by rewrite listen_iteration_run, Hcycle |].
  pose proof (listen_cycle_run env s) as Hc.
  destruct (open_input env) as [e | h]; [congruence |].
  destruct Hc as (wt & Hwt & [(e & _ & Hc) | (o & pt & Hp & Hc)]);
    [congruence |].
  rewrite Hcycle in Hc. injection Hc as <- -> ->.
  split; [by eauto |].
  destruct (process_window_shape env (window env) (gate env)
              (with_stream s h)) as (lg & Hlg & Hshape).
  rewrite Hp in Hshape. cbn zeta in Hshape.
  destruct (gate env); [destruct (truthy (transcript (asr env)));
    [destruct (_handle_message env) as [r |] |] |];
    destruct (idle_cancelled env); try discriminate;
    injection Hshape as ->; unfold_projections; by project.
Qed.

Lemma completed_cycle_keeps_stream_open_witness :
  exists t,
    listen_iteration quiet_room fresh = (Ret Continue, with_stream fresh 7, t) /\
    stops t = [] /\ closes t = [].
Proof.
  destruct (listen_cycle quiet_room fresh) as [[o s1] t] eqn:E.
  assert (Ho : o = Ret tt /\ s1 = with_stream fresh 7).
  { apply (f_equal (fun x => (x.1.1, x.1.2))) in E. vm_compute in E.
    by injection E as <- <-. }
  destruct Ho as [-> ->]. exists t.
  destruct (completed_cycle_keeps_stream_open quiet_room fresh
              (with_stream fresh 7) t E) as (Hrun & _ & _ & Hs & Hc).
  auto.
Defined.

(** X16: a failed open does not touch [self.stream]: when an earlier pass
    left stream [h] there, the handler stops and closes that earlier stream
    ([close] only if [stop_stream] returned) and sleeps one second, and the
    channel is unchanged. *)
Theorem failed_open_releases_previous_stream (env : listen_env) (s : channel)
    (h : handle) (e : exn) :
  open_input env = inl e ->
  stream s = Some h ->
  listen_iteration env s =
  (if backoff_cancelled env then Raise Cancelled else Ret Continue, s,
   [PaOpenInput rate chunk; Log Error (MsgListenError e); StreamStop h] ++
   match stop_stream env with
   | None => [StreamClose h; Sleep 1]
   | Some _ => [Sleep 1]
   end).
Proof.
  intros Hopen Hs. pose proof (listen_iteration_shape env s) as Hshape.
  rewrite Hopen in Hshape. rewrite Hshape, Hs. reflexivity.
Qed.

Lemma failed_open_releases_previous_stream_witness :
  listen_iteration no_device opened_before =
  (Ret Continue, opened_before,
   [PaOpenInput rate chunk; Log Error (MsgListenError invalid_device);
    StreamStop 5; StreamClose 5; Sleep 1]).
Proof.
  apply (failed_open_releases_previous_stream no_device opened_before 5
           invalid_device); reflexivity.
Defined.

(** X17: a pass sleeps at most once, for half a second or for one second;
    and a pass after which the loop goes on has slept, unless the device
    failed to open while [self.stream] was still [None]. *)
Theorem one_sleep_per_pass (env : listen_env) (s : channel) :
  (sleeps (trace_of (listen_iteration env) s) = [] \/
   sleeps (trace_of (listen_iteration env) s) = [(1 # 2)%Q] \/
   sleeps (trace_of (listen_iteration env) s) = [1%Q]) /\
  (result_of (listen_iteration env) s = Ret Continue ->
   sleeps (trace_of (listen_iteration env) s) = [] ->
   stream s = None /\ exists e, open_input env = inl e).
Proof.
  pose proof (listen_iteration_shape env s) as Hshape.
  unfold trace_of, result_of.
  destruct (open_input env) as [e | h].
  - rewrite Hshape. cbn [fst snd].
    destruct (recovery_calls env (stream s)) as (_ & _ & _ & _ & _ & _ & Hsl).
    unfold_projections. cbn [omap list_omap]. rewrite Hsl.
    destruct (stream s); split; eauto; done.
  - pose proof (capture_trace_events env h s) as Hwt.
    destruct (recovery_calls env (Some h)) as (_ & _ & _ & _ & _ & _ & Hsl).
    destruct Hshape as [(e & _ & ->) | (lg & Hlg & _ & _ & ->)].
    + cbn [fst snd]. unfold_projections. project. rewrite Hsl.
      split; [auto | done].
    + unfold processed. cbn zeta.
      destruct (gate env); [destruct (truthy (transcript (asr env)));
        [destruct (_handle_message env) as [[| e] |] |] |];
        destruct (idle_cancelled env); cbn [fst snd]; unfold_projections;
        project; rewrite ?Hsl; (split; [auto | done]).
Qed.

(** X18: a cancellation delivered during the idle sleep ends the loop at
    once: the passes that would follow are not run, and the loop itself
    neither stops nor closes the capture stream, which stays in
    [self.stream] for [stop] to close. *)
Theorem cancelled_idle_sleep_exits (env : listen_env)
    (envs : list listen_env) (s : channel) (h : handle) :
  _running s = true ->
  open_input env = inr h ->
  window_completes env ->
  _handle_message env = None ->
  idle_cancelled env = true ->
  exists t,
    _listen_for_audio (env :: envs) s = (Ret Exited, with_stream s h, t) /\
    sleeps t = [(1 # 2)%Q] /\ stops t = [] /\ closes t = [].
Proof.
  intros Hr Hopen Hcomp Hm Hidle.
  pose proof (listen_iteration_shape env s) as Hshape.
  rewrite Hopen in Hshape.
  pose proof (capture_trace_events env h s) as Hwt.
  rewrite listen_for_audio_cons, Hr.
  destruct Hshape as [(e & Hn & _) | (lg & Hlg & _ & _ & ->)]; [done |].
  unfold processed. rewrite Hm, Hidle. cbn zeta.
  destruct (gate env); [destruct (truthy (transcript (asr env))) |];
    eexists; (split; [reflexivity |]); unfold_projections; by project.
Qed.

Lemma cancelled_idle_sleep_exits_witness :
  exists t,
    _listen_for_audio [cancelled_idle; speech] fresh =
      (Ret Exited, with_stream fresh 7, t) /\
    sleeps t = [(1 # 2)%Q] /\ stops t = [] /\ closes t = [].
Proof.
  apply (cancelled_idle_sleep_exits cancelled_idle [speech] fresh 7);
    try reflexivity.
  intros j e _. discriminate.
Defined.

Lemma one_sleep_per_pass_witness :
  stream fresh = None /\ exists e, open_input no_device = inl e.
Proof.
  apply (proj2 (one_sleep_per_pass no_device fresh)); reflexivity.
Defined.

(** X19: a pass that opens the device and records its window to the end
    makes exactly 46 reads, each of 1024 frames on the stream it has just
    opened (2.944 s of audio, not 3 s); overflowed reads are not retried, so
    the window holds at most 46 chunks. *)
Theorem window_is_46_reads (env : listen_env) (s : channel) (h : handle) :
  open_input env = inr h ->
  window_completes env ->
  reads (trace_of (listen_iteration env) s) = replicate 46 (h, 1024%Z) /\
  length (window env) <= 46.
Proof.
  intros Hopen Hcomp.
  pose proof (listen_iteration_shape env s) as Hshape.
  rewrite Hopen in Hshape. unfold trace_of.
  destruct Hshape as [(e & Hn & _) | (lg & Hlg & _ & Hreads & ->)]; [done |].
  split.
  - unfold processed. cbn zeta.
    destruct (recovery_calls env (Some h)) as (_ & _ & Hr & _).
    change (replicate 46 (h, 1024%Z))
      with (replicate chunks_per_window (h, chunk)).
    rewrite <- Hreads. unfold reads in *.
    destruct (gate env); [destruct (truthy (transcript (asr env)));
      [destruct (_handle_message env) as [[| e] |] |] |];
      destruct (idle_cancelled env); project; rewrite ?Hr, ?app_nil_r;
      reflexivity.
  - unfold capture_trace, trace_of in Hreads.
    destruct (record_window env h 0 chunks_per_window [] false
                (with_stream s h)) as [[[fv | r] s1] t] eqn:Er.
    + by destruct (record_window_ret _ _ _ _ _ _ _ _ _ _ Er) as (_ & _ & Hlen).
    + destruct (record_window_completes env h chunks_per_window 0 [] false
                  (with_stream s h)) as (f & v & t' & Hrun').
      { intros j e Hj. apply Hcomp. lia. }
      congruence.
Qed.

Lemma window_is_46_reads_witness :
  reads (trace_of (listen_iteration one_overflow) fresh)
    = replicate 46 (7, 1024%Z) /\
  length (window one_overflow) <= 46.
Proof.
  apply (window_is_46_reads one_overflow fresh 7); [reflexivity |].
  intros [| j] e _; discriminate.
Defined.

Lemma captured_all_dropped env n : forall i,
  (forall j, i <= j < i + n -> classify (read env j) = Dropped) ->
  captured env i n = [].
Proof.
  induction n as [| n IH]; intros i Hall; [done |].
  cbn [captured]. rewrite (Hall i) by lia. apply IH. intros j Hj.
  apply Hall. lia.
Qed.

(** X20: when every read of a window overflows, the window is empty: the
    recognizer is not called, nothing is published, the pass logs that no
    voice was detected, sleeps half a second and the loop goes on. *)
Theorem all_reads_overflow_empty_window (env : listen_env) (s : channel)
    (h : handle) :
  open_input env = inr h ->
  idle_cancelled env = false ->
  (forall j, j < chunks_per_window ->
             exists args, read env j = inl (overflow args)) ->
  window env = [] /\
  result_of (listen_iteration env) s = Ret Continue /\
  asr_requests (trace_of (listen_iteration env) s) = [] /\
  handle_calls (trace_of (listen_iteration env) s) = [] /\
  In (Log Debug MsgNoVoice) (trace_of (listen_iteration env) s) /\
  sleeps (trace_of (listen_iteration env) s) = [(1 # 2)%Q].
Proof.
  intros Hopen Hidle Hall.
  assert (Hdrop : forall j, j < chunks_per_window ->
                            classify (read env j) = Dropped).
  { intros j Hj. destruct (Hall j Hj) as [args ->]. reflexivity. }
  assert (Hw : window env = []).
  { apply captured_all_dropped. intros j Hj. apply Hdrop. lia. }
  assert (Hg : gate env = false) by (unfold gate; by rewrite Hw).
  assert (Hcomp : window_completes env).
  { intros j e Hj. by rewrite (Hdrop j Hj). }
  split; [done |].
  pose proof (listen_iteration_shape env s) as Hshape.
  rewrite Hopen in Hshape. unfold trace_of, result_of.
  pose proof (capture_trace_events env h s) as Hwt.
  destruct Hshape as [(e & Hn & _) | (lg & Hlg & _ & _ & ->)]; [done |].
  unfold processed. rewrite Hg, Hidle. cbn zeta. cbn [fst snd].
  split; [done |]. split; [unfold_projections; by project |].
  split; [unfold_projections; by project |].
  split; [| unfold_projections; by project].
  apply in_or_app. right. left. reflexivity.
Qed.

Lemma all_reads_overflow_empty_window_witness :
  window all_overflow = [] /\
  result_of (listen_iteration all_overflow) fresh = Ret Continue /\
  asr_requests (trace_of (listen_iteration all_overflow) fresh) = [] /\
  handle_calls (trace_of (listen_iteration all_overflow) fresh) = [] /\
  In (Log Debug MsgNoVoice) (trace_of (listen_iteration all_overflow) fresh) /\
  sleeps (trace_of (listen_iteration all_overflow) fresh) = [(1 # 2)%Q].
Proof.
  apply (all_reads_overflow_empty_window all_overflow fresh 7);
    [reflexivity | reflexivity |].
  intros j _. by eexists.
Defined.

(** ** The recognizer request *)

(** X21: [recognize_speech] makes exactly one provider request, with the
    audio it was given, format "pcm", rate 16000 and [dev_pid] 1537, whatever
    the provider answers, and leaves the channel as it found it.  Besides
    the request its trace holds at most one line, an error log, and it holds
    none exactly when the value returned is [result[0]] of an answer with
    [err_no] 0: no failure is silent. *)
Theorem recognize_speech_request (ans : exn + gmap string pyval)
    (audio : bytes) (s : channel) :
  state_of (recognize_speech ans audio) s = s /\
  asr_requests (trace_of (recognize_speech ans audio) s) =
    [(audio, "pcm", 16000%Z, 1537%Z)] /\
  exists lg,
    trace_of (recognize_speech ans audio) s =
      Asr audio "pcm" 16000 1537 :: lg /\
    (lg = [] \/ exists m, lg = [Log Error m]) /\
    (lg = [] <->
     exists d v, ans = inr d /\
                 py_eq_int (dict_get d "err_no") 0 = true /\
                 subscript0 (dict_get d "result") = inr v).
Proof.
  unfold state_of, trace_of, asr_requests, recognize_speech. unfold_monad.
  destruct ans as [e | d]; cbn.
  - split; [done |]. split; [done |]. eexists. split; [reflexivity |].
    split; [eauto |]. split; [done |]. by intros (? & ? & ? & _).
  - destruct (py_eq_int (dict_get d "err_no") 0) eqn:E; cbn.
    + destruct (subscript0 (dict_get d "result")) as [e | v] eqn:Es; cbn.
      * split; [done |]. split; [done |]. eexists. split; [reflexivity |].
        split; [eauto |]. split; [done |].
        intros (d' & v & [= <-] & _ & Hv). congruence.
      * split; [done |]. split; [done |]. exists []. split; [reflexivity |].
        split; [eauto |]. split; [| done]. intros _. by exists d, v.
    + split; [done |]. split; [done |]. eexists. split; [reflexivity |].
      split; [eauto |]. split; [done |].
      intros (d' & v & [= <-] & Hz & _). congruence.
Qed.

(** ** Streams over several passes *)

(** X22: over any number of passes in which nothing fails and nothing is
    cancelled, the loop opens one capture stream per pass and never stops or
    closes any of them: each pass overwrites [self.stream] with a new stream
    while the earlier ones stay open. *)
Theorem one_stream_opened_per_pass_none_closed (envs : list listen_env) :
  forall s,
    _running s = true ->
    Forall uneventful envs ->
    result_of (_listen_for_audio envs) s = Ret Looping /\
    input_opens (trace_of (_listen_for_audio envs) s) =
      replicate (length envs) (16000%Z, 1024%Z) /\
    stops (trace_of (_listen_for_audio envs) s) = [] /\
    closes (trace_of (_listen_for_audio envs) s) = [].
Proof.
  induction envs as [| env envs IH]; intros s Hr Hall.
  - unfold result_of, trace_of. cbn [_listen_for_audio]. rewrite run_bind.
    cbn [get_running]. by rewrite Hr.
  - apply Forall_cons in Hall as [([h Hopen] & Hcomp & Hm & Hidle) Hall].
    pose proof (listen_iteration_shape env s) as Hshape.
    rewrite Hopen in Hshape.
    pose proof (capture_trace_events env h s) as Hwt.
    destruct Hshape as [(e & Hn & _) | (lg & Hlg & _ & _ & Hrun)]; [done |].
    unfold processed in Hrun. rewrite Hm, Hidle in Hrun.
    cbv beta iota zeta in Hrun.
    specialize (IH (with_stream s h) Hr Hall).
    unfold result_of, trace_of in *.
    rewrite listen_for_audio_cons, Hr.
    destruct (gate env); [destruct (truthy (transcript (asr env))) |];
      rewrite Hrun;
      destruct (_listen_for_audio envs (with_stream s h)) as [[r s2] t2];
      cbn [fst snd] in *; destruct IH as (-> & Ho & Hs & Hc);
      (split; [done |]);
      unfold_projections; project; rewrite ?Ho, ?Hs, ?Hc; done.
Qed.

Lemma one_stream_opened_per_pass_none_closed_witness :
  result_of (_listen_for_audio [quiet_room; speech]) fresh = Ret Looping /\
  input_opens (trace_of (_listen_for_audio [quiet_room; speech]) fresh) =
    [(16000%Z, 1024%Z); (16000%Z, 1024%Z)] /\
  stops (trace_of (_listen_for_audio [quiet_room; speech]) fresh) = [] /\
  closes (trace_of (_listen_for_audio [quiet_room; speech]) fresh) = [].
Proof.
  apply (one_stream_opened_per_pass_none_closed [quiet_room; speech] fresh);
    [reflexivity |].
  repeat constructor; try (by eexists); intros [| j] e _; discriminate.
Defined.
